(** * bouncehandler: the SNS bounce/complaint notification router

    A shallow embedding of [bouncehandler.go]: the sender registry
    ([handler.Register]), the per-sender worker, and the request pipeline of
    [handler.ServeHTTP], followed by the properties of the router that the
    specification states.

    Conventions of the embedding.
    - A Go [chan string] made with [make(chan string, n)] is a record of its
      capacity and its buffered contents, oldest first.  Every channel of the
      registry is created by [Register] for one key and stored under that key
      only, so a channel is identified by its key and the map holds the
      channel's contents directly: a send through the resolved channel is an
      update of the map at the resolved key.
    - [ServeHTTP] returns the handler after the request, the response written
      to the [http.ResponseWriter], and the trace of what it did, in program
      order: the lines it logged, the outbound GET it issued and the values it
      placed on a channel.
    - One call of [ServeHTTP] is one transition: the steps of the workers and
      of other requests are not interleaved with it.  The two loops of
      [ServeHTTP] with the worker of the queue taking turns between the sends
      are given apart ([rangeSendBeside], [dispatchBeside]).
    - [encoding/json] is outside the repository: the two decoding calls are
      parameters of the development. *)

From Stdlib Require Import String Ascii NArith List Lia.
From stdpp Require Import base option list strings gmap fin_maps.
Import ListNotations.

Local Open Scope string_scope.
Local Open Scope list_scope.

(** ** Strings *)

(** [strings.Contains(s, substr)]: [substr] occurs somewhere within [s]. *)
Fixpoint Contains (s substr : string) : bool :=
  String.prefix substr s ||
  match s with
  | EmptyString => false
  | String _ s' => Contains s' substr
  end.

(** [io.LimitReader(r, n)]: the first [n] bytes of the stream, or all of it
    when it is shorter. *)
Fixpoint limitRead (n : N) (s : string) : string :=
  match s with
  | EmptyString => EmptyString
  | String c s' =>
      if N.eqb n 0 then EmptyString else String c (limitRead (N.pred n) s')
  end.

(** [2<<20], the cap on the request body. *)
Definition bodyLimit : N := N.shiftl 2 20.

Definition dquote : string := String (ascii_of_nat 34) EmptyString.
Definition newline : string := String (ascii_of_nat 10) EmptyString.

(** ** Data model *)

(** [snsMsg]: the outer envelope. *)
Record snsMsg := mkSns {
  sns_Type : string;      (* json "Type" *)
  sns_URL : string;       (* json "SubscribeURL" *)
  sns_Message : string    (* json "Message": json put into a string *)
}.

Record bouncedRecipient := mkBounced {
  br_Email : string;       (* json "emailAddress" *)
  br_Diagnostic : string   (* json "diagnosticCode" *)
}.

Record complainedRecipient := mkComplained {
  cr_Email : string;       (* json "emailAddress" *)
  cr_Feedback : string     (* json "complaintFeedbackType" *)
}.

Record bounceInfo := mkBounce {
  Bounce_Type : string;                         (* json "bounceType" *)
  Bounce_Recipients : list bouncedRecipient     (* json "bouncedRecipients" *)
}.

Record complaintInfo := mkComplaint {
  Complaint_Recipients : list complainedRecipient  (* json "complainedRecipients" *)
}.

(** [payload]: the inner message.  The two pointer fields are [None] for a
    nil pointer. *)
Record payload := mkPayload {
  msg_Type : string;                  (* json "notificationType" *)
  Mail_Source : string;               (* json "mail.source" *)
  Bounce : option bounceInfo;         (* json "bounce" *)
  Complaint : option complaintInfo    (* json "complaint" *)
}.

(** A buffered channel of strings. *)
Record chan := mkChan {
  cap : nat;
  buf : list string
}.

(** [make(chan string, n)] *)
Definition makeChan (n : nat) : chan := mkChan n [].

(** Free slots of the buffer. *)
Definition remaining (ch : chan) : nat := cap ch - length (buf ch).

(** The non-blocking send [select { case ch <- v: ...; default: ... }]:
    [Some] of the channel with [v] appended when the buffer has room, [None]
    when the [default] branch is taken. *)
Definition trySend (ch : chan) (v : string) : option chan :=
  if (length (buf ch) <? cap ch)%nat
  then Some (mkChan (cap ch) (buf ch ++ [v]))
  else None.

(** [blacklister]: [None] is a nil error. *)
Definition blacklister : Type := string -> option string.

(** The goroutine started by [Register]: it receives from the channel stored
    under [w_key] and calls [w_f]. *)
Record worker := mkWorker {
  w_key : string;
  w_f : blacklister
}.

(** The two places of [ServeHTTP] that send on the resolved channel. *)
Inductive site := AtBounce | AtComplaint.

Global Instance site_eq_dec : EqDecision site.
Proof. solve_decision. Defined.

(** What the program does besides answering: log lines (one constructor per
    [h.log] call, carrying the arguments of its format), the GET issued by
    [confirm], the successful sends and the calls of a blacklister. *)
Inductive event :=
| LogPrint (err : string)
| LogConfirm (url : string)
| HttpGet (url : string)
| LogUnsupportedSNS (ty : string)
| LogUnsupportedMsg (ty : string)
| LogUnconfigured (sender : string)
| LogBounce (sender email diagnostic : string)
| LogComplaint (sender email feedback : string)
| Send (at_ : site) (key email : string)
| LogOverflow (sender email : string)
| Call (key email : string)
| LogCallError (email err : string).

(** [handler].  [ctx]/[cancel] are the flag [done_]; the started goroutines
    are listed in [workers], oldest first. *)
Record handler := mkHandler {
  m : gmap string chan;
  done_ : bool;
  workers : list worker;
  user : string;
  pass : string
}.

Definition withM (h : handler) (reg : gmap string chan) : handler :=
  mkHandler reg (done_ h) (workers h) (user h) (pass h).

(** [newHandler] *)
Definition newHandler : handler :=
  mkHandler ∅ false [] EmptyString EmptyString.

(** [withBasicAuth] *)
Definition withBasicAuth (h : handler) (u p : string) : handler :=
  mkHandler (m h) (done_ h) (workers h) u p.

(** [Close] *)
Definition Close (h : handler) : handler :=
  mkHandler (m h) true (workers h) (user h) (pass h).

Definition defaultKey : string := "*".

(** ** Register *)

Inductive registered :=
| Panic (srcEmail : string)   (* "handler for sender %q is already registered" *)
| Started (h : handler).

Definition Register (h : handler) (srcEmail : string) (f : blacklister)
  : registered :=
  match m h !! srcEmail with
  | Some _ => Panic srcEmail
  | None =>
      Started (mkHandler (<[srcEmail := makeChan 100]> (m h)) (done_ h)
                 (workers h ++ [mkWorker srcEmail f]) (user h) (pass h))
  end.

(** One turn of a worker's [select] through its receive case: the oldest
    address leaves the channel and is given to the blacklister; an error is
    logged and nothing else happens.  [None] when the channel is empty and
    the case is not ready.  When the context is done as well, [select] may
    take either ready case. *)
Definition workerRecv (h : handler) (w : worker) : option (handler * list event) :=
  match m h !! w_key w with
  | Some (mkChan n (email :: rest)) =>
      Some (withM h (<[w_key w := mkChan n rest]> (m h)),
            Call (w_key w) email ::
            match w_f w email with
            | Some err => [LogCallError email err]
            | None => []
            end)
  | _ => None
  end.

(** The other case of the worker's [select]: once the context is done the
    goroutine may return. *)
Definition workerStop (h : handler) (w : worker) : bool := done_ h.

(** ** Requests and responses *)

(** What [ServeHTTP] reads of the [*http.Request]: the result of
    [r.BasicAuth()] ([None] when [ok] is false) and the bytes of [r.Body]. *)
Record request := mkRequest {
  BasicAuth : option (string * string);
  Body : string
}.

(** What [ServeHTTP] writes: the status code, the header entries it sets
    itself on [w.Header()] and the body text. *)
Record response := mkResponse {
  status : nat;
  header : list (string * string);
  body : string
}.

Definition StatusNoContent : nat := 204.
Definition StatusBadRequest : nat := 400.
Definition StatusUnauthorized : nat := 401.

(** [http.StatusText], on the codes the handler uses. *)
Definition StatusText (code : nat) : string :=
  if (code =? StatusNoContent)%nat then "No Content"
  else if (code =? StatusBadRequest)%nat then "Bad Request"
  else if (code =? StatusUnauthorized)%nat then "Unauthorized"
  else EmptyString.

(** [http.Error(w, http.StatusText(code), code)] after the handler has set
    the entries [hdr]: the code, and the text followed by a newline. *)
Definition httpError (hdr : list (string * string)) (code : nat) : response :=
  mkResponse code hdr (StatusText code ++ newline).

(** [w.WriteHeader(code)] with nothing written after it. *)
Definition writeHeader (code : nat) : response :=
  mkResponse code [] EmptyString.

(** The value of the challenge header: [Basic realm="private"]. *)
Definition basicRealm : string :=
  Eval cbv in "Basic realm=" ++ dquote ++ "private" ++ dquote.

(** The guard of line 164 and the test of line 165. *)
Definition authRequired (h : handler) : bool :=
  negb (bool_decide (user h = EmptyString)) &&
  negb (bool_decide (pass h = EmptyString)).

Definition authFails (h : handler) (r : request) : bool :=
  match BasicAuth r with
  | None => true
  | Some (u, p) =>
      negb (bool_decide (u = user h)) || negb (bool_decide (p = pass h))
  end.

(** ** Sender resolution and dispatch *)

(** Lines 206-209: the channel of the sender, else the channel of ["*"],
    together with the key it is stored under. *)
Definition resolve (reg : gmap string chan) (sender : string)
  : option (string * chan) :=
  match reg !! sender with
  | Some ch => Some (sender, ch)
  | None =>
      match reg !! defaultKey with
      | Some ch => Some (defaultKey, ch)
      | None => None
      end
  end.

(** The [select] of lines 218-223 and 229-234. *)
Definition sendOrDrop (at_ : site) (sender key email : string) (ch : chan)
  : chan * list event :=
  match trySend ch email with
  | Some ch' => (ch', [Send at_ key email])
  | None => (ch, [LogOverflow sender email])
  end.

Section Range.
Context {R : Type}.
Variable emailOf : R -> string.
Variable logLine : string -> R -> event.
Variable at_ : site.

(** The body shared by the two [for _, r := range ...] loops: log the
    recipient, then send without blocking. *)
Fixpoint rangeSend (sender key : string) (ch : chan) (rs : list R)
  : chan * list event :=
  match rs with
  | [] => (ch, [])
  | r :: rs' =>
      let '(ch1, t1) := sendOrDrop at_ sender key (emailOf r) ch in
      let '(ch2, t2) := rangeSend sender key ch1 rs' in
      (ch2, logLine sender r :: t1 ++ t2)
  end.
End Range.

(** Lines 215-225. *)
Definition bounceLoop : string -> string -> chan -> list bouncedRecipient
                        -> chan * list event :=
  rangeSend br_Email
    (fun sender r => LogBounce sender (br_Email r) (br_Diagnostic r)) AtBounce.

(** Lines 226-236. *)
Definition complaintLoop : string -> string -> chan -> list complainedRecipient
                           -> chan * list event :=
  rangeSend cr_Email
    (fun sender r => LogComplaint sender (cr_Email r) (cr_Feedback r)) AtComplaint.

(** The recipients the first loop ranges over: those of a non-nil bounce
    whose type is ["Permanent"]. *)
Definition bounced (msg : payload) : list bouncedRecipient :=
  match Bounce msg with
  | Some b =>
      if bool_decide (Bounce_Type b = "Permanent") then Bounce_Recipients b
      else []
  | None => []
  end.

(** The recipients the second loop ranges over: those of a non-nil
    complaint. *)
Definition complained (msg : payload) : list complainedRecipient :=
  match Complaint msg with
  | Some c => Complaint_Recipients c
  | None => []
  end.

(** Lines 215-236 on the resolved channel. *)
Definition dispatch (sender key : string) (ch : chan) (msg : payload)
  : chan * list event :=
  let '(ch1, t1) := bounceLoop sender key ch (bounced msg) in
  let '(ch2, t2) := complaintLoop sender key ch1 (complained msg) in
  (ch2, t1 ++ t2).

(** The [switch] of line 198. *)
Definition actionable (msg : payload) : bool :=
  bool_decide (msg_Type msg = "Bounce") ||
  bool_decide (msg_Type msg = "Complaint").

(** Lines 198-237: the decoded payload. *)
Definition servePayload (h : handler) (msg : payload)
  : handler * response * list event :=
  if actionable msg then
    let sender := Mail_Source msg in
    match resolve (m h) sender with
    | None => (h, writeHeader StatusNoContent, [LogUnconfigured sender])
    | Some (key, ch) =>
        let '(ch', t) := dispatch sender key ch msg in
        (withM h (<[key := ch']> (m h)), writeHeader StatusNoContent, t)
    end
  else (h, writeHeader StatusNoContent, [LogUnsupportedMsg (msg_Type msg)]).

(** ** ServeHTTP *)

Section Serve.
(** [json.NewDecoder(rd).Decode(sns)] on the bytes [rd] yields, and
    [json.Unmarshal([]byte(s), &msg)]: the error ([inl]) or the decoded
    value ([inr]). *)
Variable jsonDecode : string -> string + snsMsg.
Variable jsonUnmarshal : string -> string + payload.

(** Lines 177-237: the decoded envelope. *)
Definition serveEnvelope (h : handler) (sns : snsMsg)
  : handler * response * list event :=
  if bool_decide (sns_Type sns = "SubscriptionConfirmation") then
    (h, writeHeader StatusNoContent,
     if Contains (sns_URL sns) "amazonaws.com"
     then [LogConfirm (sns_URL sns); HttpGet (sns_URL sns)]
     else [])
  else if bool_decide (sns_Type sns = "Notification") then
    match jsonUnmarshal (sns_Message sns) with
    | inl err => (h, httpError [] StatusBadRequest, [LogPrint err])
    | inr msg => servePayload h msg
    end
  else
    (h, httpError [] StatusBadRequest, [LogUnsupportedSNS (sns_Type sns)]).

Definition ServeHTTP (h : handler) (r : request)
  : handler * response * list event :=
  if authRequired h && authFails h r then
    (h, httpError [("WWW-Authenticate", basicRealm)] StatusUnauthorized, [])
  else
    match jsonDecode (limitRead bodyLimit (Body r)) with
    | inl err => (h, httpError [] StatusBadRequest, [LogPrint err])
    | inr sns => serveEnvelope h sns
    end.

(** How far a request gets.  [passesAuth]: the test of lines 164-165 does
    not answer 401.  [decodesEnvelope]: moreover the body decodes to [sns]
    at line 172.  [decodesPayload]: moreover the envelope is a
    ["Notification"] and its message decodes to [msg] at line 193. *)
Definition passesAuth (h : handler) (r : request) : Prop :=
  authRequired h && authFails h r = false.

Definition decodesEnvelope (h : handler) (r : request) (sns : snsMsg) : Prop :=
  passesAuth h r /\ jsonDecode (limitRead bodyLimit (Body r)) = inr sns.

Definition decodesPayload (h : handler) (r : request) (msg : payload) : Prop :=
  exists sns, decodesEnvelope h r sns /\
              sns_Type sns = "Notification" /\
              jsonUnmarshal (sns_Message sns) = inr msg.

(** The three failures that are answered 400: the body does not decode;
    the envelope is of neither known type; the envelope is a
    ["Notification"] whose message does not decode. *)
Definition badEnvelope (r : request) : Prop :=
  exists err, jsonDecode (limitRead bodyLimit (Body r)) = inl err.

Definition unknownType (r : request) : Prop :=
  exists sns, jsonDecode (limitRead bodyLimit (Body r)) = inr sns /\
              sns_Type sns <> "SubscriptionConfirmation" /\
              sns_Type sns <> "Notification".

Definition badMessage (r : request) : Prop :=
  exists sns err, jsonDecode (limitRead bodyLimit (Body r)) = inr sns /\
                  sns_Type sns = "Notification" /\
                  jsonUnmarshal (sns_Message sns) = inl err.

(** The third failure in the words of the specification: "the outer
    envelope decodes but its embedded Message string fails to decode as
    the inner payload", whatever the type of the envelope. *)
Definition messageFailsToDecode (r : request) : Prop :=
  exists sns err, jsonDecode (limitRead bodyLimit (Body r)) = inr sns /\
                  jsonUnmarshal (sns_Message sns) = inl err.
End Serve.

(** ** Reading a trace *)

Definition sendOf (e : event) : option (site * (string * string)) :=
  match e with
  | Send s key email => Some (s, (key, email))
  | _ => None
  end.

(** The sends of a trace with the place of each, in the order made. *)
Definition sends (t : list event) : list (site * (string * string)) :=
  omap sendOf t.

(** All sends, as (key, address). *)
Definition sent (t : list event) : list (string * string) :=
  map snd (sends t).

(** The sends made at one place. *)
Definition sentAt (s : site) (t : list event) : list (string * string) :=
  map snd (filter (fun x => fst x = s) (sends t)).

(** The overflow lines, as (sender, address). *)
Definition overflowed (t : list event) : list (string * string) :=
  omap (fun e => match e with LogOverflow s a => Some (s, a) | _ => None end) t.

(** The lines logged at the top of a loop body, one per recipient the loop
    reaches, as (sender, address). *)
Definition attemptOf (e : event) : option (string * string) :=
  match e with
  | LogBounce s a _ | LogComplaint s a _ => Some (s, a)
  | _ => None
  end.

Definition attempted (t : list event) : list (string * string) :=
  omap attemptOf t.

(** The URLs fetched. *)
Definition fetched (t : list event) : list string :=
  omap (fun e => match e with HttpGet u => Some u | _ => None end) t.

(** The queue stored under [key], which held [ch] before the request, is the
    one the request used: every send of the trace [t] names [key], the queue
    under [key] has grown by exactly the addresses sent, and no other entry of
    the registry differs between [h] and [h']. *)
Definition routedTo (h h' : handler) (t : list event) (key : string) (ch : chan)
  : Prop :=
  Forall (fun ka => fst ka = key) (sent t) /\
  m h' !! key = Some (mkChan (cap ch) (buf ch ++ map snd (sent t))) /\
  (forall k, k <> key -> m h' !! k = m h !! k).

(** The addresses the two loops range over, in the order they are reached. *)
Definition addresses (msg : payload) : list string :=
  map br_Email (bounced msg) ++ map cr_Email (complained msg).

(** ** The host of a URL, in the words of the specification *)

(** The specification speaks of "the confirmation URL's host".  The host of
    an absolute URL is what stands between the ["://"] that ends the scheme
    and the next ['/'], ['?'] or ['#']. *)
Fixpoint afterScheme (u : string) : string :=
  match u with
  | EmptyString => EmptyString
  | String _ u' =>
      if String.prefix "://" u then String.substring 3 (String.length u) u
      else afterScheme u'
  end.

Fixpoint untilPath (u : string) : string :=
  match u with
  | EmptyString => EmptyString
  | String c u' =>
      if Ascii.eqb c "/" || Ascii.eqb c "?" || Ascii.eqb c "#"
      then EmptyString
      else String c (untilPath u')
  end.

Definition urlHost (u : string) : string := untilPath (afterScheme u).

(** "the confirmation URL's host matches the expected cloud-notification
    domain" *)
Definition hostMatches (u : string) : bool :=
  Contains (urlHost u) "amazonaws.com".

(** ** Two sentences of the specification, as written *)

(** "For every request whose outer envelope Type is the
    subscription-confirmation type, the handler responds 204 and performs no
    further processing; it issues exactly one outbound confirmation GET to the
    SubscribeURL if and only if the confirmation URL's host matches the
    expected cloud-notification domain, and issues zero outbound calls
    otherwise." *)
Definition confirmationAsStated
    (jsonDecode : string -> string + snsMsg)
    (jsonUnmarshal : string -> string + payload)
    (h : handler) (r : request) (sns : snsMsg) : Prop :=
  decodesEnvelope jsonDecode h r sns ->
  sns_Type sns = "SubscriptionConfirmation" ->
  let '(h', resp, t) := ServeHTTP jsonDecode jsonUnmarshal h r in
  status resp = StatusNoContent /\
  sent t = [] /\
  (hostMatches (sns_URL sns) = true -> fetched t = [sns_URL sns]) /\
  (hostMatches (sns_URL sns) = false -> fetched t = []).

(** "The handler responds 400 exactly when one of the following holds: the
    request body fails to decode as the outer envelope; the outer Type is
    neither the subscription-confirmation type nor the regular-notification
    type; or the outer envelope decodes but its embedded Message string fails
    to decode as the inner payload." *)
Definition badRequestAsStated
    (jsonDecode : string -> string + snsMsg)
    (jsonUnmarshal : string -> string + payload)
    (h : handler) (r : request) : Prop :=
  passesAuth h r ->
  (status (snd (fst (ServeHTTP jsonDecode jsonUnmarshal h r))) = StatusBadRequest
   <->
   badEnvelope jsonDecode r \/ unknownType jsonDecode r \/
   messageFailsToDecode jsonDecode jsonUnmarshal r).

(** ** Sample traffic *)

(** JSON texts are written with ['] for the double quote. *)
Fixpoint js (s : string) : string :=
  match s with
  | EmptyString => EmptyString
  | String c s' =>
      if Ascii.eqb c "'" then dquote ++ js s' else String c (js s')
  end.

(** A JSON text as the value of a JSON string: quotes and backslashes are
    escaped. *)
Fixpoint escaped (s : string) : string :=
  match s with
  | EmptyString => EmptyString
  | String c s' =>
      if Ascii.eqb c (ascii_of_nat 34) || Ascii.eqb c (ascii_of_nat 92)
      then String (ascii_of_nat 92) (String c (escaped s'))
      else String c (escaped s')
  end.

(** A decoder given by its graph on the sample texts; any other text is a
    syntax error. *)
Fixpoint decodeBy {A : Type} (graph : list (string * A)) (text : string)
  : string + A :=
  match graph with
  | [] => inl "invalid character"
  | (k, v) :: graph' =>
      if bool_decide (text = k) then inr v else decodeBy graph' text
  end.

Definition notification (message : string) : string :=
  js "{'Type':'Notification','Message':'" ++ escaped message ++ js "'}".

Definition confirmation (url : string) : string :=
  js "{'Type':'SubscriptionConfirmation','SubscribeURL':'" ++ url ++
  js "','Message':'You have chosen to subscribe to the topic.'}".

(** A permanent bounce of two recipients. *)
Definition bounceText : string :=
  js "{'notificationType':'Bounce','mail':{'source':'news@example.com'},'bounce':{'bounceType':'Permanent','bouncedRecipients':[{'emailAddress':'ann@example.org','diagnosticCode':'550 no such user'},{'emailAddress':'bob@example.org','diagnosticCode':'550 mailbox disabled'}]}}".

Definition bounceMsg : payload :=
  mkPayload "Bounce" "news@example.com"
    (Some (mkBounce "Permanent"
       [mkBounced "ann@example.org" "550 no such user";
        mkBounced "bob@example.org" "550 mailbox disabled"]))
    None.

(** A transient bounce. *)
Definition transientText : string :=
  js "{'notificationType':'Bounce','mail':{'source':'news@example.com'},'bounce':{'bounceType':'Transient','bouncedRecipients':[{'emailAddress':'ann@example.org','diagnosticCode':'452 mailbox full'}]}}".

Definition transientMsg : payload :=
  mkPayload "Bounce" "news@example.com"
    (Some (mkBounce "Transient" [mkBounced "ann@example.org" "452 mailbox full"]))
    None.

(** A complaint of two recipients. *)
Definition complaintText : string :=
  js "{'notificationType':'Complaint','mail':{'source':'forum@example.com'},'complaint':{'complainedRecipients':[{'emailAddress':'cyd@example.org','complaintFeedbackType':'abuse'},{'emailAddress':'dee@example.org','complaintFeedbackType':'abuse'}]}}".

Definition complaintMsg : payload :=
  mkPayload "Complaint" "forum@example.com" None
    (Some (mkComplaint
       [mkComplained "cyd@example.org" "abuse";
        mkComplained "dee@example.org" "abuse"])).

(** A payload typed ["Bounce"] that carries a complaint object as well. *)
Definition mixedText : string :=
  js "{'notificationType':'Bounce','mail':{'source':'news@example.com'},'bounce':{'bounceType':'Permanent','bouncedRecipients':[{'emailAddress':'ann@example.org','diagnosticCode':'550 no such user'}]},'complaint':{'complainedRecipients':[{'emailAddress':'cyd@example.org','complaintFeedbackType':'abuse'}]}}".

Definition mixedMsg : payload :=
  mkPayload "Bounce" "news@example.com"
    (Some (mkBounce "Permanent" [mkBounced "ann@example.org" "550 no such user"]))
    (Some (mkComplaint [mkComplained "cyd@example.org" "abuse"])).

(** A delivery notification. *)
Definition deliveryText : string :=
  js "{'notificationType':'Delivery','mail':{'source':'news@example.com'}}".

Definition deliveryMsg : payload :=
  mkPayload "Delivery" "news@example.com" None None.

Definition goodURL : string :=
  "https://sns.us-east-1.amazonaws.com/?Action=ConfirmSubscription&Token=2336412f37fb".

(** The trusted domain occurs in the path only; the host is [example.org]. *)
Definition pathURL : string :=
  "http://example.org/amazonaws.com".

Definition confirmationMessage : string :=
  "You have chosen to subscribe to the topic.".

Definition sampleDecode : string -> string + snsMsg :=
  decodeBy
    [(notification bounceText, mkSns "Notification" EmptyString bounceText);
     (notification transientText, mkSns "Notification" EmptyString transientText);
     (notification complaintText, mkSns "Notification" EmptyString complaintText);
     (notification mixedText, mkSns "Notification" EmptyString mixedText);
     (notification deliveryText, mkSns "Notification" EmptyString deliveryText);
     (confirmation goodURL,
      mkSns "SubscriptionConfirmation" goodURL confirmationMessage);
     (confirmation pathURL,
      mkSns "SubscriptionConfirmation" pathURL confirmationMessage)].

Definition sampleUnmarshal : string -> string + payload :=
  decodeBy
    [(bounceText, bounceMsg);
     (transientText, transientMsg);
     (complaintText, complaintMsg);
     (mixedText, mixedMsg);
     (deliveryText, deliveryMsg)].

Definition noError : blacklister := fun _ => None.

(** A handler without credentials, with [news@example.com] and the
    catch-all registered, both queues empty. *)
Definition sampleHandler : handler :=
  mkHandler
    (<["news@example.com" := makeChan 100]> (<[defaultKey := makeChan 100]> ∅))
    false
    [mkWorker defaultKey noError; mkWorker "news@example.com" noError]
    EmptyString EmptyString.

(** The same with one free slot left on the queue of [news@example.com]. *)
Definition busyHandler : handler :=
  withM sampleHandler
    (<["news@example.com" := mkChan 100 (replicate 99 "old@example.org")]>
       (m sampleHandler)).

(** A handler with credentials and nothing registered. *)
Definition lockedHandler : handler :=
  withBasicAuth newHandler "sns" "secret".

Definition post (text : string) : request := mkRequest None text.

(** ** Configuration and startup *)

(** [cred]: one record of the configuration file. *)
Record cred := mkCred {
  Query : string;   (* json "sql" *)
  DSN : string      (* json "dsn" *)
}.

(** [strings.Count(s, substr)] for a [substr] of one byte, which is how
    line 90 calls it: the number of bytes of [s] equal to it. *)
Fixpoint CountByte (s : string) (c : ascii) : nat :=
  match s with
  | EmptyString => 0
  | String c' s' => (if Ascii.eqb c' c then 1 else 0) + CountByte s' c
  end.

(** The ways [readConfig] fails: the error of [os.Open], the error of the
    decoder, "empty config", "invalid record for %q, all fields should be
    non-empty" and "invalid sql for %q: expected exactly 1 placeholder". *)
Inductive configError :=
| OpenError (err : string)
| DecodeError (err : string)
| EmptyConfig
| InvalidRecord (k : string)
| InvalidSQL (k : string).

(** Lines 87-92: the two tests on one record. *)
Definition checkRecord (k : string) (v : cred) : option configError :=
  if bool_decide (Query v = EmptyString) || bool_decide (DSN v = EmptyString)
  then Some (InvalidRecord k)
  else if negb (CountByte (Query v) "?" =? 1)%nat
  then Some (InvalidSQL k)
  else None.

(** Lines 86-93: the loop over the records, in the order the map yields
    them; the first record that fails a test ends it. *)
Fixpoint rangeCheck (entries : list (string * cred)) : option configError :=
  match entries with
  | [] => None
  | (k, v) :: rest =>
      match checkRecord k v with
      | Some e => Some e
      | None => rangeCheck rest
      end
  end.

Section Config.
(** [os.Open(name)] followed by reading the file: the error or the bytes.
    [json.NewDecoder(rd).Decode(&out)] into a map; a nil map is the empty
    map.  [rangeOf]: the order in which [range] yields the entries of a map,
    which Go leaves unspecified. *)
Variable osOpen : string -> string + string.
Variable jsonDecodeConfig : string -> string + gmap string cred.
Variable rangeOf : gmap string cred -> list (string * cred).

(** [readConfig] *)
Definition readConfig (name : string) : configError + gmap string cred :=
  match osOpen name with
  | inl err => inl (OpenError err)
  | inr content =>
      match jsonDecodeConfig (limitRead bodyLimit content) with
      | inl err => inl (DecodeError err)
      | inr out =>
          if bool_decide (size out = 0) then inl EmptyConfig
          else match rangeCheck (rangeOf out) with
               | Some e => inl e
               | None => inr out
               end
      end
  end.
End Config.

(** How the setup of [main] ends: [logger.Fatal(err)] on a configuration
    error, [logger.Fatalf] on a failed connection test, the panic of
    [Register], or the handler given to the server. *)
Inductive startup :=
| FatalConfig (e : configError)
| FatalConnect (k err : string)
| Panicked (k : string)
| Serving (h : handler).

Section Main.
(** [sqlBlacklister(dsn, query)]: the error of opening or pinging the
    database, or the function that runs the query. *)
Variable sqlBlacklister : string -> string -> string + blacklister.

(** Lines 42-48: the loop over the records of the configuration. *)
Fixpoint registerEach (h : handler) (entries : list (string * cred)) : startup :=
  match entries with
  | [] => Serving h
  | (k, v) :: rest =>
      match sqlBlacklister (DSN v) (Query v) with
      | inl err => FatalConnect k err
      | inr f =>
          match Register h k f with
          | Panic k' => Panicked k'
          | Started h' => registerEach h' rest
          end
      end
  end.

(** Lines 36-48 of [main], from the result of [readConfig] and the values of
    the flags [-user] and [-pass].  The logger of [withLog] is the trace. *)
Definition mainSetup (config : configError + gmap string cred)
    (rangeOf : gmap string cred -> list (string * cred))
    (User Pass : string) : startup :=
  match config with
  | inl e => FatalConfig e
  | inr creds =>
      registerEach (withBasicAuth newHandler User Pass) (rangeOf creds)
  end.
End Main.

(** ** The worker's loop *)

(** The goroutine of lines 148-159 running on its own for at most [fuel]
    turns of its [select], each through the receive case, until the channel
    is empty. *)
Fixpoint workerLoop (fuel : nat) (h : handler) (w : worker)
  : handler * list event :=
  match fuel with
  | 0 => (h, [])
  | S fuel' =>
      match workerRecv h w with
      | None => (h, [])
      | Some (h1, t1) =>
          let '(h2, t2) := workerLoop fuel' h1 w in (h2, t1 ++ t2)
      end
  end.

(** The calls of a blacklister, as (key, address), and the errors logged
    for them, as (address, error). *)
Definition calls (t : list event) : list (string * string) :=
  omap (fun e => match e with Call k a => Some (k, a) | _ => None end) t.

Definition callErrors (t : list event) : list (string * string) :=
  omap (fun e => match e with LogCallError a err => Some (a, err) | _ => None end) t.

(** ** The loops with the worker beside them *)

(** The queue after its worker has received [n] times: the [n] oldest
    addresses have left it (all of them when it held fewer). *)
Definition received (n : nat) (ch : chan) : chan :=
  mkChan (cap ch) (drop n (buf ch)).

Section RangeBeside.
Context {R : Type}.
Variable emailOf : R -> string.
Variable logLine : string -> R -> event.
Variable at_ : site.

(** A loop [for _, r := range ...] of [ServeHTTP] while the worker of the
    resolved queue runs and nothing else sends on that queue.  [turns] tells,
    for each pass of the loop in turn, how many addresses the worker has
    received since the pass before; a send handed over to a waiting worker is
    a send followed by one receive.  The result is the queue, what the
    request logged and sent, and the turns not used. *)
Fixpoint rangeSendBeside (turns : list nat) (sender key : string) (ch : chan)
    (rs : list R) : chan * list event * list nat :=
  match rs with
  | [] => (ch, [], turns)
  | r :: rs' =>
      let '(ch1, t1) :=
        sendOrDrop at_ sender key (emailOf r) (received (hd 0 turns) ch) in
      let '(ch2, t2, rest) := rangeSendBeside (tl turns) sender key ch1 rs' in
      (ch2, logLine sender r :: t1 ++ t2, rest)
  end.
End RangeBeside.

(** Lines 215-236 with the worker beside them. *)
Definition dispatchBeside (turns : list nat) (sender key : string) (ch : chan)
    (msg : payload) : chan * list event :=
  let '(ch1, t1, turns1) :=
    rangeSendBeside br_Email
      (fun sender r => LogBounce sender (br_Email r) (br_Diagnostic r))
      AtBounce turns sender key ch (bounced msg) in
  let '(ch2, t2, _) :=
    rangeSendBeside cr_Email
      (fun sender r => LogComplaint sender (cr_Email r) (cr_Feedback r))
      AtComplaint turns1 sender key ch1 (complained msg) in
  (ch2, t1 ++ t2).

(** No queue of the registry holds more than its capacity. *)
Definition bounded (reg : gmap string chan) : Prop :=
  map_Forall (fun _ ch => length (buf ch) <= cap ch) reg.

(** ** A sample configuration *)

Definition sampleCreds : gmap string cred :=
  <["news@example.com" :=
      mkCred "delete from subscribers where email=?"
             "user:password@tcp(192.168.0.1:3306)/news"]>
  (<["*" :=
      mkCred "update users set notify=0 where email=?"
             "user:password@tcp(192.168.0.1:3306)/forum"]> ∅).

(** A configuration whose only record has no placeholder in its sql. *)
Definition badCreds : gmap string cred :=
  <["news@example.com" :=
      mkCred "delete from subscribers"
             "user:password@tcp(192.168.0.1:3306)/news"]> ∅.

Definition sampleOpen (name : string) : string + string :=
  if bool_decide (name = "mapping.json") then inr "mapping"
  else if bool_decide (name = "bad.json") then inr "bad"
  else inl "open: no such file or directory".

Definition sampleDecodeConfig : string -> string + gmap string cred :=
  decodeBy [("mapping", sampleCreds); ("bad", badCreds)].

Definition sampleConnect (dsn query : string) : string + blacklister :=
  inr noError.

(** A blacklister that fails on one address. *)
Definition failsOn (bad : string) : blacklister :=
  fun email => if bool_decide (email = bad) then Some "Error 1205" else None.

(** The new handler after registering [news@example.com]. *)
Definition freshHandler : handler :=
  mkHandler (<["news@example.com" := makeChan 100]> ∅) false
    [mkWorker "news@example.com" noError] EmptyString EmptyString.

(** A handler whose queue for [news@example.com] holds three addresses. *)
Definition loadedHandler : handler :=
  withM sampleHandler
    (<["news@example.com" :=
         mkChan 100 ["ann@example.org"; "bob@example.org"; "cyd@example.org"]]>
       (m sampleHandler)).

(** * Properties *)

(** ** The channel *)

Lemma trySend_room ch v :
  length (buf ch) < cap ch ->
  trySend ch v = Some (mkChan (cap ch) (buf ch ++ [v])).
Proof.
  intros Hlt. unfold trySend.
  destruct (Nat.ltb_spec (length (buf ch)) (cap ch)); [reflexivity | lia].
Qed.

Lemma trySend_full ch v :
  cap ch <= length (buf ch) -> trySend ch v = None.
Proof.
  intros Hle. unfold trySend.
  destruct (Nat.ltb_spec (length (buf ch)) (cap ch)); [lia | reflexivity].
Qed.

Lemma sendOrDrop_full s sender key email ch :
  remaining ch = 0 ->
  sendOrDrop s sender key email ch = (ch, [LogOverflow sender email]).
Proof.
  unfold remaining, sendOrDrop. intros Hz.
  rewrite trySend_full by lia. reflexivity.
Qed.

Lemma sendOrDrop_room s sender key email ch :
  0 < remaining ch ->
  sendOrDrop s sender key email ch =
    (mkChan (cap ch) (buf ch ++ [email]), [Send s key email]).
Proof.
  unfold remaining, sendOrDrop. intros Hpos.
  rewrite trySend_room by lia. reflexivity.
Qed.

Lemma remaining_after_send ch email :
  remaining (mkChan (cap ch) (buf ch ++ [email])) = remaining ch - 1.
Proof. unfold remaining. simpl. rewrite length_app. simpl. lia. Qed.

Example bodyLimit_value : bodyLimit = 2097152%N.
Proof. reflexivity. Qed.

Lemma limitRead_short n s :
  (N.of_nat (String.length s) <= n)%N -> limitRead n s = s.
Proof.
  revert n. induction s as [|c s IH]; intros n Hle; simpl; [done|].
  simpl in Hle. destruct (N.eqb_spec n 0) as [->|Hn]; [lia|].
  rewrite IH; [done | lia].
Qed.

(** The receive case of a worker takes the oldest address of its queue,
    leaves the rest in order, and calls the blacklister on it. *)
Lemma workerRecv_oldest h w n email rest :
  m h !! w_key w = Some (mkChan n (email :: rest)) ->
  exists h' t,
    workerRecv h w = Some (h', Call (w_key w) email :: t) /\
    m h' !! w_key w = Some (mkChan n rest) /\
    (forall k, k <> w_key w -> m h' !! k = m h !! k) /\
    t = match w_f w email with
        | Some err => [LogCallError email err]
        | None => []
        end.
Proof.
  intros Hq. unfold workerRecv. rewrite Hq. eexists _, _.
  split; [reflexivity|]. simpl. rewrite lookup_insert_eq.
  repeat split. intros k Hk. by rewrite lookup_insert_ne.
Qed.

(** ** The loops *)

Section RangeFacts.
Context {R : Type}.
Variable emailOf : R -> string.
Variable logLine : string -> R -> event.
Variable s : site.
Hypothesis logLine_attempt :
  forall sender r, attemptOf (logLine sender r) = Some (sender, emailOf r).

Let loop := rangeSend emailOf logLine s.

Lemma logLine_sendOf sender r : sendOf (logLine sender r) = None.
Proof.
  specialize (logLine_attempt sender r).
  destruct (logLine sender r); simpl in *; congruence.
Qed.

(** The channel after the loop: the addresses that found room, appended in
    the order of the list. *)
Lemma rangeSend_chan sender key ch rs :
  fst (loop sender key ch rs) =
    mkChan (cap ch) (buf ch ++ take (remaining ch) (map emailOf rs)).
Proof.
  subst loop. revert ch. induction rs as [|r rs IH]; intros ch; simpl.
  - rewrite take_nil, app_nil_r. by destruct ch.
  - destruct (Nat.eq_dec (remaining ch) 0) as [Hz|Hnz].
    + rewrite sendOrDrop_full by done.
      specialize (IH ch).
      destruct (rangeSend emailOf logLine s sender key ch rs) as [ch2 t2].
      simpl in *. rewrite IH, Hz. by rewrite !take_0.
    + rewrite sendOrDrop_room by lia.
      specialize (IH (mkChan (cap ch) (buf ch ++ [emailOf r]))).
      destruct (rangeSend emailOf logLine s sender key _ rs) as [ch2 t2].
      simpl in *. rewrite IH, remaining_after_send. simpl.
      destruct (remaining ch) as [|n]; [lia|]. simpl.
      rewrite Nat.sub_0_r, <- app_assoc. reflexivity.
Qed.

(** The trace of the loop: a send for each address that found room, an
    overflow line for each of the others, and the top line for all. *)
Lemma rangeSend_trace sender key ch rs :
  let t := snd (loop sender key ch rs) in
  sends t = map (fun a => (s, (key, a))) (take (remaining ch) (map emailOf rs)) /\
  overflowed t = map (fun a => (sender, a)) (drop (remaining ch) (map emailOf rs)) /\
  attempted t = map (fun a => (sender, a)) (map emailOf rs).
Proof.
  subst loop. revert ch. induction rs as [|r rs IH]; intros ch; simpl.
  - by rewrite take_nil, drop_nil.
  - pose proof (logLine_attempt sender r) as Hatt.
    pose proof (logLine_sendOf sender r) as Hsend.
    assert (Hov : match logLine sender r with
                  | LogOverflow a b => Some (a, b) | _ => None end = None).
    { destruct (logLine sender r); simpl in *; congruence. }
    destruct (Nat.eq_dec (remaining ch) 0) as [Hz|Hnz].
    + rewrite sendOrDrop_full by done.
      destruct (IH ch) as (IH1 & IH2 & IH3).
      destruct (rangeSend emailOf logLine s sender key ch rs) as [ch2 t2].
      unfold sends, overflowed, attempted in *. csimpl in *.
      rewrite Hatt, Hsend, Hov, IH1, IH2, IH3, Hz.
      by rewrite !take_0, !drop_0.
    + rewrite sendOrDrop_room by lia.
      destruct (IH (mkChan (cap ch) (buf ch ++ [emailOf r]))) as (IH1 & IH2 & IH3).
      destruct (rangeSend emailOf logLine s sender key _ rs) as [ch2 t2].
      unfold sends, overflowed, attempted in *. csimpl in *.
      rewrite Hatt, Hsend, Hov, IH1, IH2, IH3, remaining_after_send.
      destruct (remaining ch) as [|n]; [lia|]. simpl.
      by rewrite Nat.sub_0_r.
Qed.
End RangeFacts.

Lemma bounce_attempt sender r :
  attemptOf (LogBounce sender (br_Email r) (br_Diagnostic r)) =
    Some (sender, br_Email r).
Proof. reflexivity. Qed.

Lemma complaint_attempt sender r :
  attemptOf (LogComplaint sender (cr_Email r) (cr_Feedback r)) =
    Some (sender, cr_Email r).
Proof. reflexivity. Qed.

Lemma sends_app t1 t2 : sends (t1 ++ t2) = sends t1 ++ sends t2.
Proof. apply omap_app. Qed.

Lemma overflowed_app t1 t2 : overflowed (t1 ++ t2) = overflowed t1 ++ overflowed t2.
Proof. apply omap_app. Qed.

Lemma attempted_app t1 t2 : attempted (t1 ++ t2) = attempted t1 ++ attempted t2.
Proof. apply omap_app. Qed.

Lemma filter_site_same (s : site) key (l : list string) :
  filter (fun x : site * (string * string) => fst x = s)
    (map (fun a => (s, (key, a))) l) = map (fun a => (s, (key, a))) l.
Proof.
  induction l as [|a l IH]; [done|]. simpl.
  rewrite filter_cons_True by done. by rewrite IH.
Qed.

Lemma filter_site_other (s s' : site) key (l : list string) :
  s' <> s ->
  filter (fun x : site * (string * string) => fst x = s)
    (map (fun a => (s', (key, a))) l) = [].
Proof.
  intros Hne. induction l as [|a l IH]; [done|]. simpl.
  by rewrite filter_cons_False.
Qed.

Lemma remaining_after_take ch (l : list string) :
  remaining (mkChan (cap ch) (buf ch ++ take (remaining ch) l)) =
    remaining ch - length l.
Proof.
  unfold remaining. simpl. rewrite length_app, length_take. lia.
Qed.

(** ** Dispatch on the resolved channel *)

(** The channel after both loops holds what it held, then the addresses that
    found room, bounce recipients before complaint recipients. *)
Lemma dispatch_chan sender key ch msg :
  fst (dispatch sender key ch msg) =
    mkChan (cap ch) (buf ch ++ take (remaining ch) (addresses msg)).
Proof.
  unfold dispatch, bounceLoop, complaintLoop, addresses.
  pose proof (rangeSend_chan br_Email
    (fun sender r => LogBounce sender (br_Email r) (br_Diagnostic r))
    AtBounce sender key ch (bounced msg)) as H1.
  destruct (rangeSend br_Email _ AtBounce sender key ch (bounced msg))
    as [ch1 t1].
  simpl in H1. subst ch1.
  pose proof (rangeSend_chan cr_Email
    (fun sender r => LogComplaint sender (cr_Email r) (cr_Feedback r))
    AtComplaint sender key
    (mkChan (cap ch) (buf ch ++ take (remaining ch) (map br_Email (bounced msg))))
    (complained msg)) as H2.
  destruct (rangeSend cr_Email _ AtComplaint sender key _ (complained msg))
    as [ch2 t2].
  simpl in *. subst ch2.
  rewrite remaining_after_take, length_map, take_app, length_map, <- app_assoc.
  reflexivity.
Qed.

Lemma dispatch_trace sender key ch msg :
  let t := snd (dispatch sender key ch msg) in
  sends t =
    map (fun a => (AtBounce, (key, a)))
      (take (remaining ch) (map br_Email (bounced msg))) ++
    map (fun a => (AtComplaint, (key, a)))
      (take (remaining ch - length (bounced msg)) (map cr_Email (complained msg))) /\
  overflowed t = map (fun a => (sender, a)) (drop (remaining ch) (addresses msg)) /\
  attempted t = map (fun a => (sender, a)) (addresses msg).
Proof.
  unfold dispatch, bounceLoop, complaintLoop, addresses.
  pose proof (rangeSend_chan br_Email
    (fun sender r => LogBounce sender (br_Email r) (br_Diagnostic r))
    AtBounce sender key ch (bounced msg)) as H1.
  destruct (rangeSend_trace br_Email
    (fun sender r => LogBounce sender (br_Email r) (br_Diagnostic r))
    AtBounce bounce_attempt sender key ch (bounced msg)) as (B1 & B2 & B3).
  destruct (rangeSend br_Email _ AtBounce sender key ch (bounced msg))
    as [ch1 t1].
  simpl in H1, B1, B2, B3. subst ch1.
  destruct (rangeSend_trace cr_Email
    (fun sender r => LogComplaint sender (cr_Email r) (cr_Feedback r))
    AtComplaint complaint_attempt sender key
    (mkChan (cap ch) (buf ch ++ take (remaining ch) (map br_Email (bounced msg))))
    (complained msg)) as (C1 & C2 & C3).
  destruct (rangeSend cr_Email _ AtComplaint sender key _ (complained msg))
    as [ch2 t2].
  simpl in C1, C2, C3. simpl.
  rewrite sends_app, overflowed_app, attempted_app.
  rewrite B1, B2, B3, C1, C2, C3.
  rewrite remaining_after_take, !length_map, drop_app, length_map, !map_app.
  done.
Qed.

Lemma dispatch_sent sender key ch msg :
  sent (snd (dispatch sender key ch msg)) =
    map (fun a => (key, a)) (take (remaining ch) (addresses msg)).
Proof.
  destruct (dispatch_trace sender key ch msg) as (H & _).
  unfold sent, addresses. simpl in H. rewrite H.
  rewrite take_app, length_map, !map_app, !map_map. done.
Qed.

Lemma dispatch_sentAt_bounce sender key ch msg :
  sentAt AtBounce (snd (dispatch sender key ch msg)) =
    map (fun a => (key, a)) (take (remaining ch) (map br_Email (bounced msg))).
Proof.
  destruct (dispatch_trace sender key ch msg) as (H & _).
  unfold sentAt. simpl in H. rewrite H, filter_app.
  rewrite filter_site_same, filter_site_other by done.
  by rewrite app_nil_r, map_map.
Qed.

Lemma dispatch_sentAt_complaint sender key ch msg :
  sentAt AtComplaint (snd (dispatch sender key ch msg)) =
    map (fun a => (key, a))
      (take (remaining ch - length (bounced msg)) (map cr_Email (complained msg))).
Proof.
  destruct (dispatch_trace sender key ch msg) as (H & _).
  unfold sentAt. simpl in H. rewrite H, filter_app.
  rewrite filter_site_same, filter_site_other by done.
  simpl. by rewrite map_map.
Qed.

Section RangeLines.
Context {R : Type}.
Variable emailOf : R -> string.
Variable logLine : string -> R -> event.
Variable s : site.
Hypothesis logLine_attempt :
  forall sender r, attemptOf (logLine sender r) = Some (sender, emailOf r).

(** A loop over recipients logs no unconfigured sender. *)
Lemma rangeSend_configured sender key ch rs x :
  LogUnconfigured x ∉ snd (rangeSend emailOf logLine s sender key ch rs).
Proof.
  revert ch. induction rs as [|r rs IH]; intros ch; simpl.
  - apply not_elem_of_nil.
  - assert (Hline : logLine sender r <> LogUnconfigured x).
    { intros E. specialize (logLine_attempt sender r).
      rewrite E in logLine_attempt. discriminate. }
    unfold sendOrDrop. destruct (trySend ch (emailOf r)) as [ch1|].
    + specialize (IH ch1).
      destruct (rangeSend emailOf logLine s sender key ch1 rs) as [ch2 t2].
      cbn [snd app] in *. intros Hin.
      apply elem_of_cons in Hin as [E|Hin]; [by symmetry in E|].
      apply elem_of_cons in Hin as [E|Hin]; [discriminate E | done].
    + specialize (IH ch).
      destruct (rangeSend emailOf logLine s sender key ch rs) as [ch2 t2].
      cbn [snd app] in *. intros Hin.
      apply elem_of_cons in Hin as [E|Hin]; [by symmetry in E|].
      apply elem_of_cons in Hin as [E|Hin]; [discriminate E | done].
Qed.
End RangeLines.

Lemma dispatch_configured sender key ch msg x :
  LogUnconfigured x ∉ snd (dispatch sender key ch msg).
Proof.
  unfold dispatch, bounceLoop, complaintLoop.
  pose proof (rangeSend_configured br_Email
    (fun sender r => LogBounce sender (br_Email r) (br_Diagnostic r))
    AtBounce bounce_attempt sender key ch (bounced msg) x) as H1.
  destruct (rangeSend br_Email _ AtBounce sender key ch (bounced msg))
    as [ch1 t1].
  pose proof (rangeSend_configured cr_Email
    (fun sender r => LogComplaint sender (cr_Email r) (cr_Feedback r))
    AtComplaint complaint_attempt sender key ch1 (complained msg) x) as H2.
  destruct (rangeSend cr_Email _ AtComplaint sender key ch1 (complained msg))
    as [ch2 t2].
  simpl in *. intros Hin. apply elem_of_app in Hin as [Hin|Hin]; done.
Qed.

(** ** The stages of a request *)

Lemma resolve_exact reg sender ch :
  reg !! sender = Some ch -> resolve reg sender = Some (sender, ch).
Proof. intros H. unfold resolve. by rewrite H. Qed.

Lemma resolve_wildcard reg sender ch :
  reg !! sender = None -> reg !! defaultKey = Some ch ->
  resolve reg sender = Some (defaultKey, ch).
Proof. intros H1 H2. unfold resolve. by rewrite H1, H2. Qed.

Lemma resolve_none reg sender :
  reg !! sender = None -> reg !! defaultKey = None ->
  resolve reg sender = None.
Proof. intros H1 H2. unfold resolve. by rewrite H1, H2. Qed.

Lemma resolve_lookup reg sender key ch :
  resolve reg sender = Some (key, ch) -> reg !! key = Some ch.
Proof.
  unfold resolve. destruct (reg !! sender) eqn:E1.
  - intros [= <- <-]. done.
  - destruct (reg !! defaultKey) eqn:E2; [|done]. intros [= <- <-]. done.
Qed.

Lemma actionable_cases msg :
  actionable msg = true <->
  msg_Type msg = "Bounce" \/ msg_Type msg = "Complaint".
Proof.
  unfold actionable. rewrite orb_true_iff, !bool_decide_eq_true. done.
Qed.

Lemma servePayload_resolved h msg key ch :
  actionable msg = true ->
  resolve (m h) (Mail_Source msg) = Some (key, ch) ->
  servePayload h msg =
    (withM h (<[key := fst (dispatch (Mail_Source msg) key ch msg)]> (m h)),
     writeHeader StatusNoContent,
     snd (dispatch (Mail_Source msg) key ch msg)).
Proof.
  intros Hact Hres. unfold servePayload. rewrite Hact, Hres.
  by destruct (dispatch (Mail_Source msg) key ch msg).
Qed.

Lemma servePayload_unresolved h msg :
  actionable msg = true ->
  resolve (m h) (Mail_Source msg) = None ->
  servePayload h msg =
    (h, writeHeader StatusNoContent, [LogUnconfigured (Mail_Source msg)]).
Proof. intros Hact Hres. unfold servePayload. by rewrite Hact, Hres. Qed.

Lemma servePayload_ignored h msg :
  actionable msg = false ->
  servePayload h msg =
    (h, writeHeader StatusNoContent, [LogUnsupportedMsg (msg_Type msg)]).
Proof. intros Hact. unfold servePayload. by rewrite Hact. Qed.

(** Whatever the payload, the answer is 204 and sends go through
    [dispatch] on a resolved channel only. *)
Lemma servePayload_status h msg :
  snd (fst (servePayload h msg)) = writeHeader StatusNoContent.
Proof.
  unfold servePayload. destruct (actionable msg); [|done].
  destruct (resolve (m h) (Mail_Source msg)) as [[key ch]|]; [|done].
  by destruct (dispatch (Mail_Source msg) key ch msg).
Qed.

Lemma bounced_permanent msg b :
  Bounce msg = Some b -> Bounce_Type b = "Permanent" ->
  bounced msg = Bounce_Recipients b.
Proof.
  intros Hb Hp. unfold bounced. rewrite Hb. by rewrite bool_decide_eq_true_2.
Qed.

Lemma bounced_other msg :
  (forall b, Bounce msg = Some b -> Bounce_Type b <> "Permanent") ->
  bounced msg = [].
Proof.
  intros Hn. unfold bounced. destruct (Bounce msg) as [b|]; [|done].
  rewrite bool_decide_eq_false_2; [done|]. by apply Hn.
Qed.

Lemma complained_some msg c :
  Complaint msg = Some c -> complained msg = Complaint_Recipients c.
Proof. intros Hc. unfold complained. by rewrite Hc. Qed.

Section ServeFacts.
Variable jsonDecode : string -> string + snsMsg.
Variable jsonUnmarshal : string -> string + payload.

Abbreviation serve := (ServeHTTP jsonDecode jsonUnmarshal).
Abbreviation decodesEnvelope := (decodesEnvelope jsonDecode).
Abbreviation decodesPayload := (decodesPayload jsonDecode jsonUnmarshal).

Lemma serve_unauthorized h r :
  authRequired h && authFails h r = true ->
  serve h r =
    (h, httpError [("WWW-Authenticate", basicRealm)] StatusUnauthorized, []).
Proof. intros H. unfold ServeHTTP. by rewrite H. Qed.

Lemma serve_envelope h r sns :
  decodesEnvelope h r sns ->
  serve h r = serveEnvelope jsonUnmarshal h sns.
Proof.
  intros [Hauth Hdec]. unfold ServeHTTP. red in Hauth.
  by rewrite Hauth, Hdec.
Qed.

Lemma serve_payload h r msg :
  decodesPayload h r msg -> serve h r = servePayload h msg.
Proof.
  intros (sns & Henv & Hty & Hmsg).
  rewrite (serve_envelope _ _ _ Henv). unfold serveEnvelope.
  rewrite Hty, Hmsg. by rewrite bool_decide_eq_false_2.
Qed.

End ServeFacts.

(** ** Dispatch of bounces and complaints *)

Section Dispatch.
Variable jsonDecode : string -> string + snsMsg.
Variable jsonUnmarshal : string -> string + payload.

Abbreviation serve := (ServeHTTP jsonDecode jsonUnmarshal).
Abbreviation decodesPayload := (decodesPayload jsonDecode jsonUnmarshal).

(** C1.  A decoded notification payload with a bounce of type "Permanent"
    and N recipients, for which a queue is resolved with at least N free
    slots: the N addresses are sent at the bounce loop, on the resolved key,
    in the order of the list, and stand in the queue right behind what it
    held.  A decoded payload whose bounce is absent or of any other type: no
    send is made at the bounce loop. *)
Theorem permanent_bounce_enqueued h r msg h' resp t :
  decodesPayload h r msg ->
  serve h r = (h', resp, t) ->
  (forall b key ch,
     Bounce msg = Some b ->
     Bounce_Type b = "Permanent" ->
     actionable msg = true ->
     resolve (m h) (Mail_Source msg) = Some (key, ch) ->
     length (Bounce_Recipients b) <= remaining ch ->
     sentAt AtBounce t = map (fun x => (key, br_Email x)) (Bounce_Recipients b) /\
     exists ch' rest,
       m h' !! key = Some ch' /\
       buf ch' = buf ch ++ map br_Email (Bounce_Recipients b) ++ rest) /\
  ((forall b, Bounce msg = Some b -> Bounce_Type b <> "Permanent") ->
   sentAt AtBounce t = []).
Proof.
  intros Hdec Hserve. rewrite (serve_payload _ _ _ _ _ Hdec) in Hserve.
  split.
  - intros b key ch Hb Hperm Hact Hres Hfit.
    rewrite (servePayload_resolved _ _ _ _ Hact Hres) in Hserve.
    injection Hserve as <- _ <-.
    pose proof (bounced_permanent _ _ Hb Hperm) as Hbd.
    split.
    + rewrite dispatch_sentAt_bounce, Hbd.
      rewrite take_ge by (rewrite length_map; lia).
      by rewrite map_map.
    + eexists _, (take (remaining ch - length (Bounce_Recipients b))
                    (map cr_Email (complained msg))).
      simpl. rewrite lookup_insert_eq. split; [reflexivity|].
      rewrite dispatch_chan. simpl. unfold addresses.
      rewrite Hbd, take_app, length_map.
      by rewrite take_ge by (rewrite length_map; lia).
  - intros Hother. pose proof (bounced_other _ Hother) as Hbd.
    destruct (actionable msg) eqn:Hact.
    + destruct (resolve (m h) (Mail_Source msg)) as [[key ch]|] eqn:Hres.
      * rewrite (servePayload_resolved _ _ _ _ Hact Hres) in Hserve.
        injection Hserve as _ _ <-.
        rewrite dispatch_sentAt_bounce, Hbd. simpl. by rewrite take_nil.
      * rewrite (servePayload_unresolved _ _ Hact Hres) in Hserve.
        by injection Hserve as _ _ <-.
    + rewrite (servePayload_ignored _ _ Hact) in Hserve.
      by injection Hserve as _ _ <-.
Qed.

(** C2.  A decoded payload with a complaint of N recipients, for which a
    queue is resolved with room for them (behind the bounce recipients the
    first loop sends, if any): the N addresses are sent at the complaint
    loop, on the resolved key, in the order of the list, and the queue ends
    with them.  Nothing is asked of the bounce object or its type. *)
Theorem complaint_recipients_enqueued h r msg c key ch h' resp t :
  decodesPayload h r msg ->
  actionable msg = true ->
  resolve (m h) (Mail_Source msg) = Some (key, ch) ->
  Complaint msg = Some c ->
  length (bounced msg) + length (Complaint_Recipients c) <= remaining ch ->
  serve h r = (h', resp, t) ->
  sentAt AtComplaint t =
    map (fun x => (key, cr_Email x)) (Complaint_Recipients c) /\
  m h' !! key =
    Some (mkChan (cap ch)
            (buf ch ++ map br_Email (bounced msg) ++
             map cr_Email (Complaint_Recipients c))) /\
  status resp = StatusNoContent.
Proof.
  intros Hdec Hact Hres Hc Hfit Hserve.
  rewrite (serve_payload _ _ _ _ _ Hdec) in Hserve.
  rewrite (servePayload_resolved _ _ _ _ Hact Hres) in Hserve.
  injection Hserve as <- <- <-.
  pose proof (complained_some _ _ Hc) as Hcd.
  split; [|split; [|done]].
  - rewrite dispatch_sentAt_complaint, Hcd.
    rewrite take_ge by (rewrite length_map; lia).
    by rewrite map_map.
  - simpl. rewrite lookup_insert_eq, dispatch_chan. unfold addresses.
    rewrite Hcd, take_ge; [done|].
    rewrite length_app, !length_map. lia.
Qed.

(** C3.  For a decoded payload of type "Bounce" or "Complaint" the answer is
    204 and the queue is found by the sender address of the payload.  If the
    registry has the sender address, its queue is the one used: every
    recipient of the payload is reached, the addresses that find room in that
    queue are sent on it and stand in it behind what it held, no other queue
    changes, and no unconfigured sender is logged.  If the registry has not
    the sender address but has the key "*", the same holds of the queue of
    "*".  If it has neither, the handler is unchanged and the only thing done
    is the line logged for the unconfigured sender: nothing is sent. *)
Theorem sender_resolution h r msg h' resp t :
  decodesPayload h r msg ->
  actionable msg = true ->
  serve h r = (h', resp, t) ->
  status resp = StatusNoContent /\
  (forall ch, m h !! Mail_Source msg = Some ch ->
     routedTo h h' t (Mail_Source msg) ch /\
     sent t =
       map (fun a => (Mail_Source msg, a))
         (take (remaining ch) (addresses msg)) /\
     m h' !! Mail_Source msg =
       Some (mkChan (cap ch) (buf ch ++ take (remaining ch) (addresses msg))) /\
     attempted t = map (fun a => (Mail_Source msg, a)) (addresses msg) /\
     (forall x, LogUnconfigured x ∉ t)) /\
  (forall ch, m h !! Mail_Source msg = None -> m h !! defaultKey = Some ch ->
     routedTo h h' t defaultKey ch /\
     sent t =
       map (fun a => (defaultKey, a)) (take (remaining ch) (addresses msg)) /\
     m h' !! defaultKey =
       Some (mkChan (cap ch) (buf ch ++ take (remaining ch) (addresses msg))) /\
     attempted t = map (fun a => (Mail_Source msg, a)) (addresses msg) /\
     (forall x, LogUnconfigured x ∉ t)) /\
  (m h !! Mail_Source msg = None -> m h !! defaultKey = None ->
   h' = h /\ t = [LogUnconfigured (Mail_Source msg)] /\ sent t = []).
Proof.
  intros Hdec Hact Hserve.
  rewrite (serve_payload _ _ _ _ _ Hdec) in Hserve.
  assert (Hrouted : forall key ch,
            resolve (m h) (Mail_Source msg) = Some (key, ch) ->
            routedTo h h' t key ch /\
            sent t = map (fun a => (key, a)) (take (remaining ch) (addresses msg)) /\
            m h' !! key =
              Some (mkChan (cap ch)
                      (buf ch ++ take (remaining ch) (addresses msg))) /\
            attempted t = map (fun a => (Mail_Source msg, a)) (addresses msg) /\
            (forall x, LogUnconfigured x ∉ t)).
  { intros key ch Hres.
    rewrite (servePayload_resolved _ _ _ _ Hact Hres) in Hserve.
    injection Hserve as <- _ <-. unfold routedTo. simpl.
    destruct (dispatch_trace (Mail_Source msg) key ch msg) as (_ & _ & Hatt).
    rewrite dispatch_sent, dispatch_chan.
    split; [split; [|split]|split; [|split; [|split]]].
    - apply Forall_forall. intros [k a] Hin.
      apply list_elem_of_In, in_map_iff in Hin as (a' & [= <- <-] & _). done.
    - rewrite lookup_insert_eq, map_map. simpl. by rewrite map_id.
    - intros k Hk. by rewrite lookup_insert_ne.
    - done.
    - by rewrite lookup_insert_eq.
    - exact Hatt.
    - intros x. apply dispatch_configured. }
  split; [|split; [|split]].
  - pose proof (servePayload_status h msg) as Hst.
    rewrite Hserve in Hst. simpl in Hst. by subst resp.
  - intros ch Hch. apply Hrouted. by apply resolve_exact.
  - intros ch Hno Hch. apply Hrouted. by apply resolve_wildcard.
  - intros Hno Hno'.
    rewrite (servePayload_unresolved _ _ Hact (resolve_none _ _ Hno Hno')) in Hserve.
    by injection Hserve as <- _ <-.
Qed.
End Dispatch.

Section Overflow.
Variable jsonDecode : string -> string + snsMsg.
Variable jsonUnmarshal : string -> string + payload.

Abbreviation serve := (ServeHTTP jsonDecode jsonUnmarshal).
Abbreviation decodesPayload := (decodesPayload jsonDecode jsonUnmarshal).

(** C4.  For a decoded payload of type "Bounce" or "Complaint" with a
    resolved queue that has [remaining ch] free slots, the handler returns
    with 204 and: every recipient is reached (its line is logged), in the
    order of the lists; the first [remaining ch] addresses are sent; each
    later one, which finds the queue full, is logged as an overflow with the
    sender and the address, and is not in the queue afterwards; the queue
    holds what it held and the addresses sent, and no other queue changes.
    A send on a full queue by itself leaves the queue as it was and logs the
    overflow. *)
Theorem overflow_dropped h r msg key ch h' resp t :
  decodesPayload h r msg ->
  actionable msg = true ->
  resolve (m h) (Mail_Source msg) = Some (key, ch) ->
  serve h r = (h', resp, t) ->
  resp = writeHeader StatusNoContent /\
  attempted t = map (fun a => (Mail_Source msg, a)) (addresses msg) /\
  sent t = map (fun a => (key, a)) (take (remaining ch) (addresses msg)) /\
  overflowed t =
    map (fun a => (Mail_Source msg, a)) (drop (remaining ch) (addresses msg)) /\
  (forall i a, addresses msg !! i = Some a -> remaining ch <= i ->
               LogOverflow (Mail_Source msg) a ∈ t) /\
  m h' !! key =
    Some (mkChan (cap ch) (buf ch ++ take (remaining ch) (addresses msg))) /\
  (forall k, k <> key -> m h' !! k = m h !! k) /\
  (forall s a full, remaining full = 0 ->
     sendOrDrop s (Mail_Source msg) key a full =
       (full, [LogOverflow (Mail_Source msg) a])).
Proof.
  intros Hdec Hact Hres Hserve.
  rewrite (serve_payload _ _ _ _ _ Hdec) in Hserve.
  rewrite (servePayload_resolved _ _ _ _ Hact Hres) in Hserve.
  injection Hserve as <- <- <-.
  destruct (dispatch_trace (Mail_Source msg) key ch msg) as (_ & Hov & Hatt).
  simpl in Hov, Hatt.
  repeat split.
  - exact Hatt.
  - apply dispatch_sent.
  - exact Hov.
  - intros i a Hi Hle.
    assert (Hin : (Mail_Source msg, a) ∈
                  overflowed (snd (dispatch (Mail_Source msg) key ch msg))).
    { rewrite Hov. apply list_elem_of_In, in_map, list_elem_of_In.
      apply list_elem_of_lookup. exists (i - remaining ch).
      rewrite lookup_drop. by replace (remaining ch + (i - remaining ch)) with i by lia. }
    unfold overflowed in Hin. apply list_elem_of_omap in Hin as (e & He & Hm).
    destruct e; try discriminate. by injection Hm as -> ->.
  - simpl. by rewrite lookup_insert_eq, dispatch_chan.
  - intros k Hk. simpl. by rewrite lookup_insert_ne.
  - intros s a full Hz. by apply sendOrDrop_full.
Qed.
End Overflow.

Section Filter.
Variable jsonDecode : string -> string + snsMsg.
Variable jsonUnmarshal : string -> string + payload.

Abbreviation serve := (ServeHTTP jsonDecode jsonUnmarshal).
Abbreviation decodesPayload := (decodesPayload jsonDecode jsonUnmarshal).

(** C6.  A decoded payload whose type is neither "Bounce" nor "Complaint":
    the answer is 204, the handler is unchanged and the only thing done is
    the line logged for the unsupported type, so nothing is sent. *)
Theorem unsupported_type_ignored h r msg :
  decodesPayload h r msg ->
  msg_Type msg <> "Bounce" ->
  msg_Type msg <> "Complaint" ->
  serve h r =
    (h, writeHeader StatusNoContent, [LogUnsupportedMsg (msg_Type msg)]) /\
  status (snd (fst (serve h r))) = 204 /\
  sent (snd (serve h r)) = [].
Proof.
  intros Hdec Hb Hc.
  rewrite (serve_payload _ _ _ _ _ Hdec), servePayload_ignored; [done|].
  unfold actionable. by rewrite !bool_decide_eq_false_2.
Qed.

(** C10.  For a decoded payload of type "Bounce" or "Complaint" with a
    resolved queue, what is dispatched is read off the two sub-objects: the
    recipients of a non-nil bounce of type "Permanent" ([bounced]), then
    the recipients of a non-nil complaint ([complained]).  The sends are
    those that find room, bounce recipients first; with room for all, all
    are sent and stand in the queue in that order.  The type of the payload
    plays no part: the same payload under the other of the two types gives
    the same result. *)
Theorem dispatch_by_presence h r msg key ch h' resp t :
  decodesPayload h r msg ->
  actionable msg = true ->
  resolve (m h) (Mail_Source msg) = Some (key, ch) ->
  serve h r = (h', resp, t) ->
  sent t = sentAt AtBounce t ++ sentAt AtComplaint t /\
  sent t = map (fun a => (key, a)) (take (remaining ch) (addresses msg)) /\
  (forall b, Bounce msg = Some b -> Bounce_Type b = "Permanent" ->
     length (Bounce_Recipients b) <= remaining ch ->
     sentAt AtBounce t = map (fun x => (key, br_Email x)) (Bounce_Recipients b)) /\
  (forall c, Complaint msg = Some c ->
     length (bounced msg) + length (Complaint_Recipients c) <= remaining ch ->
     sentAt AtComplaint t =
       map (fun x => (key, cr_Email x)) (Complaint_Recipients c)) /\
  (length (addresses msg) <= remaining ch ->
   m h' !! key = Some (mkChan (cap ch) (buf ch ++ addresses msg))) /\
  (forall ty, ty = "Bounce" \/ ty = "Complaint" ->
     servePayload h (mkPayload ty (Mail_Source msg) (Bounce msg) (Complaint msg))
       = (h', resp, t)).
Proof.
  intros Hdec Hact Hres Hserve.
  rewrite (serve_payload _ _ _ _ _ Hdec) in Hserve.
  pose proof Hserve as Hserve'.
  rewrite (servePayload_resolved _ _ _ _ Hact Hres) in Hserve.
  injection Hserve as <- <- <-.
  repeat split.
  - rewrite dispatch_sent, dispatch_sentAt_bounce, dispatch_sentAt_complaint.
    unfold addresses. by rewrite take_app, length_map, map_app.
  - apply dispatch_sent.
  - intros b Hb Hperm Hfit.
    rewrite dispatch_sentAt_bounce, (bounced_permanent _ _ Hb Hperm).
    rewrite take_ge by (rewrite length_map; lia). by rewrite map_map.
  - intros c Hc Hfit.
    rewrite dispatch_sentAt_complaint, (complained_some _ _ Hc).
    rewrite take_ge by (rewrite length_map; lia). by rewrite map_map.
  - intros Hfit. simpl. rewrite lookup_insert_eq, dispatch_chan.
    by rewrite take_ge.
  - intros ty Hty. rewrite <- Hserve'. unfold servePayload.
    replace (actionable (mkPayload ty (Mail_Source msg) (Bounce msg) (Complaint msg)))
      with true by (symmetry; by apply actionable_cases).
    rewrite Hact. simpl. by destruct (resolve (m h) (Mail_Source msg)) as [[]|].
Qed.
End Filter.

(** ** Confirmation, bad requests and the credentials *)

Section Envelope.
Variable jsonDecode : string -> string + snsMsg.
Variable jsonUnmarshal : string -> string + payload.

Abbreviation serve := (ServeHTTP jsonDecode jsonUnmarshal).
Abbreviation decodesEnvelope := (decodesEnvelope jsonDecode).

Lemma serveEnvelope_confirmation h sns :
  sns_Type sns = "SubscriptionConfirmation" ->
  serveEnvelope jsonUnmarshal h sns =
    (h, writeHeader StatusNoContent,
     if Contains (sns_URL sns) "amazonaws.com"
     then [LogConfirm (sns_URL sns); HttpGet (sns_URL sns)]
     else []).
Proof. intros Hty. unfold serveEnvelope. by rewrite bool_decide_eq_true_2. Qed.

(** C5, amended.  A decoded envelope of type "SubscriptionConfirmation" is
    answered 204 with the handler unchanged and nothing sent to any queue.
    If the SubscribeURL contains "amazonaws.com" anywhere, the handler logs
    the URL and issues one GET to it, and does nothing else; if it does not,
    the handler does nothing at all.  So one GET is issued exactly when the
    URL contains that text. *)
Theorem confirmation_terminal h r sns :
  decodesEnvelope h r sns ->
  sns_Type sns = "SubscriptionConfirmation" ->
  exists t,
    serve h r = (h, writeHeader StatusNoContent, t) /\
    sent t = [] /\
    (Contains (sns_URL sns) "amazonaws.com" = true ->
     t = [LogConfirm (sns_URL sns); HttpGet (sns_URL sns)] /\
     fetched t = [sns_URL sns]) /\
    (Contains (sns_URL sns) "amazonaws.com" = false ->
     t = [] /\ fetched t = []) /\
    (fetched t = [sns_URL sns] <-> Contains (sns_URL sns) "amazonaws.com" = true).
Proof.
  intros Henv Hty.
  rewrite (serve_envelope _ _ _ _ _ Henv), (serveEnvelope_confirmation _ _ Hty).
  eexists. split; [reflexivity|].
  destruct (Contains (sns_URL sns) "amazonaws.com"); repeat split; try done.
Qed.

Lemma serveEnvelope_status h sns :
  status (snd (fst (serveEnvelope jsonUnmarshal h sns))) = StatusBadRequest <->
  (sns_Type sns <> "SubscriptionConfirmation" /\ sns_Type sns <> "Notification") \/
  (sns_Type sns = "Notification" /\
   exists err, jsonUnmarshal (sns_Message sns) = inl err).
Proof.
  unfold serveEnvelope.
  case_bool_decide as Hc; simpl.
  - split; [done|]. intros [[? _]|[Hn _]]; [done|]. by rewrite Hn in Hc.
  - case_bool_decide as Hn.
    + destruct (jsonUnmarshal (sns_Message sns)) as [err|msg] eqn:Hm; simpl.
      * split; [|done]. intros _. right. eauto.
      * rewrite servePayload_status. simpl. split; [done|].
        intros [[_ ?]|[_ [err [=]]]]. done.
    + split; [|done]. intros _. by left.
Qed.

Lemma serveEnvelope_bad_quiet h sns :
  status (snd (fst (serveEnvelope jsonUnmarshal h sns))) = StatusBadRequest ->
  fst (fst (serveEnvelope jsonUnmarshal h sns)) = h /\
  sent (snd (serveEnvelope jsonUnmarshal h sns)) = [].
Proof.
  unfold serveEnvelope.
  case_bool_decide; [done|]. case_bool_decide; [|done].
  destruct (jsonUnmarshal (sns_Message sns)); [done|].
  by rewrite servePayload_status.
Qed.

(** C7, amended.  The handler answers 400 exactly when the request passes
    the credentials check and one of these holds: the body, read up to the
    cap, does not decode as the envelope; the envelope decodes and its type
    is neither "SubscriptionConfirmation" nor "Notification"; the envelope
    decodes, its type is "Notification", and its message does not decode as
    the payload.  A request answered 400 leaves the handler unchanged and
    sends nothing. *)
Theorem bad_request_iff h r :
  (status (snd (fst (serve h r))) = StatusBadRequest <->
   passesAuth h r /\
   (badEnvelope jsonDecode r \/ unknownType jsonDecode r \/
    badMessage jsonDecode jsonUnmarshal r)) /\
  (status (snd (fst (serve h r))) = StatusBadRequest ->
   fst (fst (serve h r)) = h /\ sent (snd (serve h r)) = []).
Proof.
  unfold passesAuth, badEnvelope, unknownType, badMessage, ServeHTTP.
  destruct (authRequired h && authFails h r); simpl.
  { split; [|done]. split; [done|]. by intros [? _]. }
  destruct (jsonDecode (limitRead bodyLimit (Body r))) as [err|sns] eqn:Hd; simpl.
  { split; [|done]. split; [|done]. intros _. split; [done|]. left. eauto. }
  split; [|apply serveEnvelope_bad_quiet].
  rewrite serveEnvelope_status. split.
  - intros [[Hc Hn]|[Hn [err Hm]]]; (split; [done|]); right.
    + left. eauto.
    + right. eauto.
  - intros [_ [[err [=]]|[(sns' & [= <-] & Hc & Hn)|(sns' & err & [= <-] & Hn & Hm)]]].
    + by left.
    + right. eauto.
Qed.

(** C8.  With both a user and a password configured, a request without
    Basic credentials, or with a user or a password that differs, is
    answered 401 with the header WWW-Authenticate set; the handler is
    unchanged and nothing else is done.  With the user or the password
    empty, the credentials of the request are not looked at: the result is
    the same whatever they are, and it is never 401. *)
Theorem basic_auth_gate h r :
  (user h <> EmptyString -> pass h <> EmptyString ->
   (BasicAuth r = None \/
    exists u p, BasicAuth r = Some (u, p) /\ (u <> user h \/ p <> pass h)) ->
   serve h r =
     (h, mkResponse StatusUnauthorized [("WWW-Authenticate", basicRealm)]
           (StatusText StatusUnauthorized ++ newline), [])) /\
  (user h = EmptyString \/ pass h = EmptyString ->
   (forall a a' text,
      serve h (mkRequest a text) = serve h (mkRequest a' text)) /\
   status (snd (fst (serve h r))) <> StatusUnauthorized).
Proof.
  split.
  - intros Hu Hp Hbad. apply serve_unauthorized.
    unfold authRequired, authFails.
    rewrite !bool_decide_eq_false_2 by done. simpl.
    destruct Hbad as [->|(u & p & -> & [Hne|Hne])]; [done| |].
    + by rewrite (bool_decide_eq_false_2 _ Hne).
    + rewrite (bool_decide_eq_false_2 _ Hne). by rewrite orb_true_r.
  - intros Hempty.
    assert (Hskip : authRequired h = false).
    { unfold authRequired. destruct Hempty as [->| ->].
      - done.
      - by rewrite andb_false_r. }
    split.
    + intros a a' text. unfold ServeHTTP. by rewrite Hskip.
    + unfold ServeHTTP. rewrite Hskip. simpl.
      destruct (jsonDecode (limitRead bodyLimit (Body r))) as [err|sns]; [done|].
      unfold serveEnvelope. case_bool_decide; [done|].
      case_bool_decide; [|done].
      destruct (jsonUnmarshal (sns_Message sns)); [done|].
      by rewrite servePayload_status.
Qed.
End Envelope.

(** ** Registration *)

(** C9.  Registering a sender that the registry already has panics, and no
    handler with a replaced entry results.  Registering a fresh sender
    yields a handler whose registry has a new empty queue of capacity 100
    under that sender and every other entry as before, and whose workers are
    the former ones and one new worker, bound to that queue and to the given
    function; the credentials and the cancellation flag are as before. *)
Theorem Register_fresh_or_panic h srcEmail f :
  (forall ch, m h !! srcEmail = Some ch -> Register h srcEmail f = Panic srcEmail) /\
  (m h !! srcEmail = None ->
   exists h',
     Register h srcEmail f = Started h' /\
     m h' !! srcEmail = Some (mkChan 100 []) /\
     (forall k, k <> srcEmail -> m h' !! k = m h !! k) /\
     workers h' = workers h ++ [mkWorker srcEmail f] /\
     user h' = user h /\ pass h' = pass h /\ done_ h' = done_ h).
Proof.
  unfold Register. split.
  - intros ch Hch. by rewrite Hch.
  - intros Hfree. rewrite Hfree. eexists. split; [reflexivity|]. simpl.
    rewrite lookup_insert_eq. repeat split; try done.
    intros k Hk. by rewrite lookup_insert_ne.
Qed.

(** * The properties on the sample traffic *)

Lemma triple_eta {A B C : Type} (x : A * B * C) :
  x = (fst (fst x), snd (fst x), snd x).
Proof. by destruct x as [[a b] c]. Defined.

Lemma sample_decodes text msg :
  sampleDecode (limitRead bodyLimit (notification text)) =
    inr (mkSns "Notification" EmptyString text) ->
  sampleUnmarshal text = inr msg ->
  decodesPayload sampleDecode sampleUnmarshal sampleHandler
    (post (notification text)) msg.
Proof.
  intros Hd Hu. exists (mkSns "Notification" EmptyString text).
  split; [split; [reflexivity | exact Hd] | split; [reflexivity | exact Hu]].
Defined.

Lemma permanent_bounce_enqueued_witness :
  sentAt AtBounce
    (snd (ServeHTTP sampleDecode sampleUnmarshal sampleHandler
            (post (notification bounceText)))) =
    [("news@example.com", "ann@example.org");
     ("news@example.com", "bob@example.org")] /\
  sentAt AtBounce
    (snd (ServeHTTP sampleDecode sampleUnmarshal sampleHandler
            (post (notification transientText)))) = [].
Proof.
  assert (Hd1 : decodesPayload sampleDecode sampleUnmarshal sampleHandler
                  (post (notification bounceText)) bounceMsg)
    by (apply sample_decodes; vm_compute; reflexivity).
  assert (Hd2 : decodesPayload sampleDecode sampleUnmarshal sampleHandler
                  (post (notification transientText)) transientMsg)
    by (apply sample_decodes; vm_compute; reflexivity).
  split.
  - pose proof (permanent_bounce_enqueued _ _ _ _ _ _ _ _ Hd1 (triple_eta _))
      as [Hsent _].
    destruct (Hsent (mkBounce "Permanent"
                       [mkBounced "ann@example.org" "550 no such user";
                        mkBounced "bob@example.org" "550 mailbox disabled"])
                "news@example.com" (makeChan 100)) as [H _].
    + reflexivity.
    + reflexivity.
    + vm_compute; reflexivity.
    + vm_compute; reflexivity.
    + vm_compute; lia.
    + exact H.
  - pose proof (permanent_bounce_enqueued _ _ _ _ _ _ _ _ Hd2 (triple_eta _))
      as [_ Hnone].
    apply Hnone. intros b [= <-]. simpl. discriminate.
Defined.

Lemma complaint_recipients_enqueued_witness :
  sentAt AtComplaint
    (snd (ServeHTTP sampleDecode sampleUnmarshal sampleHandler
            (post (notification complaintText)))) =
    [("*", "cyd@example.org"); ("*", "dee@example.org")].
Proof.
  assert (Hd : decodesPayload sampleDecode sampleUnmarshal sampleHandler
                 (post (notification complaintText)) complaintMsg)
    by (apply sample_decodes; vm_compute; reflexivity).
  assert (Hact : actionable complaintMsg = true) by (vm_compute; reflexivity).
  assert (Hres : resolve (m sampleHandler) (Mail_Source complaintMsg) =
                 Some ("*", makeChan 100)) by (vm_compute; reflexivity).
  assert (Hfit : length (bounced complaintMsg) +
                 length [mkComplained "cyd@example.org" "abuse";
                         mkComplained "dee@example.org" "abuse"] <=
                 remaining (makeChan 100)) by (vm_compute; lia).
  exact (proj1 (complaint_recipients_enqueued _ _ _ _ _ _ _ _ _ _ _
                  Hd Hact Hres eq_refl Hfit (triple_eta _))).
Defined.

Lemma sender_resolution_witness :
  sent (snd (ServeHTTP sampleDecode sampleUnmarshal sampleHandler
               (post (notification complaintText)))) =
    [("*", "cyd@example.org"); ("*", "dee@example.org")] /\
  m (fst (fst (ServeHTTP sampleDecode sampleUnmarshal sampleHandler
                 (post (notification complaintText))))) !! "*" =
    Some (mkChan 100 ["cyd@example.org"; "dee@example.org"]) /\
  sent (snd (ServeHTTP sampleDecode sampleUnmarshal sampleHandler
               (post (notification bounceText)))) =
    [("news@example.com", "ann@example.org");
     ("news@example.com", "bob@example.org")] /\
  m (fst (fst (ServeHTTP sampleDecode sampleUnmarshal sampleHandler
                 (post (notification bounceText))))) !! "news@example.com" =
    Some (mkChan 100 ["ann@example.org"; "bob@example.org"]) /\
  snd (ServeHTTP sampleDecode sampleUnmarshal newHandler
         (post (notification bounceText))) =
    [LogUnconfigured "news@example.com"].
Proof.
  assert (Hd1 : decodesPayload sampleDecode sampleUnmarshal sampleHandler
                  (post (notification complaintText)) complaintMsg)
    by (apply sample_decodes; vm_compute; reflexivity).
  assert (Hd2 : decodesPayload sampleDecode sampleUnmarshal sampleHandler
                  (post (notification bounceText)) bounceMsg)
    by (apply sample_decodes; vm_compute; reflexivity).
  assert (Hd3 : decodesPayload sampleDecode sampleUnmarshal newHandler
                  (post (notification bounceText)) bounceMsg).
  { exists (mkSns "Notification" EmptyString bounceText).
    split; [split; [reflexivity | vm_compute; reflexivity]
           | split; [reflexivity | vm_compute; reflexivity]]. }
  assert (Ha1 : actionable complaintMsg = true) by (vm_compute; reflexivity).
  assert (Ha2 : actionable bounceMsg = true) by (vm_compute; reflexivity).
  pose proof (sender_resolution _ _ _ _ _ _ _ _ Hd1 Ha1 (triple_eta _))
    as (_ & _ & Hwild & _).
  pose proof (sender_resolution _ _ _ _ _ _ _ _ Hd2 Ha2 (triple_eta _))
    as (_ & Hexact & _).
  pose proof (sender_resolution _ _ _ _ _ _ _ _ Hd3 Ha2 (triple_eta _))
    as (_ & _ & _ & Hnone).
  destruct (Hwild (makeChan 100)) as (_ & Hs1 & Hq1 & _);
    [vm_compute; reflexivity | vm_compute; reflexivity |].
  destruct (Hexact (makeChan 100)) as (_ & Hs2 & Hq2 & _);
    [vm_compute; reflexivity |].
  destruct Hnone as (_ & Ht & _);
    [vm_compute; reflexivity | vm_compute; reflexivity |].
  split; [exact Hs1|]. split; [exact Hq1|]. split; [exact Hs2|].
  split; [exact Hq2 | exact Ht].
Defined.

Lemma busy_decodes_mixed :
  decodesPayload sampleDecode sampleUnmarshal busyHandler
    (post (notification mixedText)) mixedMsg.
Proof.
  exists (mkSns "Notification" EmptyString mixedText).
  split; [split; [reflexivity | vm_compute; reflexivity]
         | split; [reflexivity | vm_compute; reflexivity]].
Defined.

Lemma overflow_dropped_witness :
  snd (fst (ServeHTTP sampleDecode sampleUnmarshal busyHandler
              (post (notification mixedText)))) = writeHeader 204 /\
  sent (snd (ServeHTTP sampleDecode sampleUnmarshal busyHandler
               (post (notification mixedText)))) =
    [("news@example.com", "ann@example.org")] /\
  overflowed (snd (ServeHTTP sampleDecode sampleUnmarshal busyHandler
                     (post (notification mixedText)))) =
    [("news@example.com", "cyd@example.org")].
Proof.
  assert (Hact : actionable mixedMsg = true) by (vm_compute; reflexivity).
  assert (Hres : resolve (m busyHandler) (Mail_Source mixedMsg) =
                 Some ("news@example.com",
                       mkChan 100 (replicate 99 "old@example.org")))
    by (vm_compute; reflexivity).
  pose proof (overflow_dropped _ _ _ _ _ _ _ _ _ _
                busy_decodes_mixed Hact Hres (triple_eta _))
    as (Hresp & _ & Hsent & Hover & _).
  split; [exact Hresp | split; [exact Hsent | exact Hover]].
Defined.

Lemma unsupported_type_ignored_witness :
  ServeHTTP sampleDecode sampleUnmarshal sampleHandler
    (post (notification deliveryText)) =
    (sampleHandler, writeHeader 204, [LogUnsupportedMsg "Delivery"]).
Proof.
  assert (Hd : decodesPayload sampleDecode sampleUnmarshal sampleHandler
                 (post (notification deliveryText)) deliveryMsg)
    by (apply sample_decodes; vm_compute; reflexivity).
  assert (Hb : msg_Type deliveryMsg <> "Bounce") by (simpl; discriminate).
  assert (Hc : msg_Type deliveryMsg <> "Complaint") by (simpl; discriminate).
  exact (proj1 (unsupported_type_ignored _ _ _ _ _ Hd Hb Hc)).
Defined.

Lemma dispatch_by_presence_witness :
  sent (snd (ServeHTTP sampleDecode sampleUnmarshal sampleHandler
               (post (notification mixedText)))) =
    [("news@example.com", "ann@example.org");
     ("news@example.com", "cyd@example.org")] /\
  servePayload sampleHandler
    (mkPayload "Complaint" (Mail_Source mixedMsg) (Bounce mixedMsg)
       (Complaint mixedMsg)) =
  ServeHTTP sampleDecode sampleUnmarshal sampleHandler
    (post (notification mixedText)).
Proof.
  assert (Hd : decodesPayload sampleDecode sampleUnmarshal sampleHandler
                 (post (notification mixedText)) mixedMsg)
    by (apply sample_decodes; vm_compute; reflexivity).
  assert (Hact : actionable mixedMsg = true) by (vm_compute; reflexivity).
  assert (Hres : resolve (m sampleHandler) (Mail_Source mixedMsg) =
                 Some ("news@example.com", makeChan 100))
    by (vm_compute; reflexivity).
  pose proof (dispatch_by_presence _ _ _ _ _ _ _ _ _ _
                Hd Hact Hres (triple_eta _))
    as (_ & Hsent & _ & _ & _ & Hty).
  split; [exact Hsent|].
  rewrite (Hty "Complaint") by (right; reflexivity).
  symmetry. apply triple_eta.
Defined.

Lemma sample_decodes_confirmation h url :
  authRequired h = false ->
  sampleDecode (limitRead bodyLimit (confirmation url)) =
    inr (mkSns "SubscriptionConfirmation" url confirmationMessage) ->
  decodesEnvelope sampleDecode h (post (confirmation url))
    (mkSns "SubscriptionConfirmation" url confirmationMessage).
Proof.
  intros Hauth Hd. split; [|exact Hd].
  unfold passesAuth. rewrite Hauth. reflexivity.
Defined.

(** C5 as written fails: the host of [pathURL] is [example.org], which has
    nothing of the trusted domain, and yet the GET is issued, because the
    text occurs in the path. *)
Lemma confirmation_get_ignores_host :
  ~ confirmationAsStated sampleDecode sampleUnmarshal sampleHandler
      (post (confirmation pathURL))
      (mkSns "SubscriptionConfirmation" pathURL confirmationMessage).
Proof.
  unfold confirmationAsStated. intros Hclaim.
  assert (Hd : decodesEnvelope sampleDecode sampleHandler
                 (post (confirmation pathURL))
                 (mkSns "SubscriptionConfirmation" pathURL confirmationMessage))
    by (apply sample_decodes_confirmation; vm_compute; reflexivity).
  specialize (Hclaim Hd eq_refl).
  assert (Hrun : ServeHTTP sampleDecode sampleUnmarshal sampleHandler
                   (post (confirmation pathURL)) =
                 (sampleHandler, writeHeader StatusNoContent,
                  [LogConfirm pathURL; HttpGet pathURL]))
    by (vm_compute; reflexivity).
  rewrite Hrun in Hclaim.
  destruct Hclaim as (_ & _ & _ & Hzero).
  assert (Hhost : hostMatches pathURL = false) by (vm_compute; reflexivity).
  specialize (Hzero Hhost). discriminate Hzero.
Qed.

Lemma confirmation_terminal_witness :
  ServeHTTP sampleDecode sampleUnmarshal sampleHandler
    (post (confirmation goodURL)) =
    (sampleHandler, writeHeader 204, [LogConfirm goodURL; HttpGet goodURL]).
Proof.
  assert (Hd : decodesEnvelope sampleDecode sampleHandler
                 (post (confirmation goodURL))
                 (mkSns "SubscriptionConfirmation" goodURL confirmationMessage))
    by (apply sample_decodes_confirmation; vm_compute; reflexivity).
  destruct (confirmation_terminal sampleDecode sampleUnmarshal _ _ _ Hd eq_refl)
    as (t & Hrun & _ & Hyes & _).
  destruct Hyes as [-> _]; [vm_compute; reflexivity|].
  exact Hrun.
Defined.

(** C7 as written fails: the message of a subscription confirmation is plain
    text, which does not decode as a payload, and the answer is 204. *)
Lemma confirmation_message_not_decoded :
  ~ badRequestAsStated sampleDecode sampleUnmarshal sampleHandler
      (post (confirmation goodURL)).
Proof.
  unfold badRequestAsStated. intros Hclaim.
  assert (Hauth : passesAuth sampleHandler (post (confirmation goodURL)))
    by reflexivity.
  destruct (Hclaim Hauth) as [_ Hback].
  assert (Hrun : status (snd (fst (ServeHTTP sampleDecode sampleUnmarshal
                   sampleHandler (post (confirmation goodURL))))) = 204)
    by (vm_compute; reflexivity).
  rewrite Hrun in Hback.
  assert (H400 : 204 = StatusBadRequest); [|discriminate H400].
  apply Hback. right. right.
  exists (mkSns "SubscriptionConfirmation" goodURL confirmationMessage),
         "invalid character".
  split; vm_compute; reflexivity.
Qed.

Lemma bad_request_iff_witness :
  status (snd (fst (ServeHTTP sampleDecode sampleUnmarshal sampleHandler
                      (post "{")))) = 400.
Proof.
  apply (proj1 (bad_request_iff sampleDecode sampleUnmarshal sampleHandler
                  (post "{"))).
  split; [reflexivity|].
  left. exists "invalid character". vm_compute; reflexivity.
Defined.

Lemma basic_auth_gate_witness :
  ServeHTTP sampleDecode sampleUnmarshal lockedHandler
    (mkRequest (Some ("sns", "guess")) (notification bounceText)) =
    (lockedHandler,
     mkResponse 401 [("WWW-Authenticate", basicRealm)]
       (StatusText 401 ++ newline), []) /\
  ServeHTTP sampleDecode sampleUnmarshal sampleHandler
    (mkRequest (Some ("sns", "guess")) (notification bounceText)) =
  ServeHTTP sampleDecode sampleUnmarshal sampleHandler
    (mkRequest None (notification bounceText)).
Proof.
  split.
  - apply (proj1 (basic_auth_gate sampleDecode sampleUnmarshal lockedHandler
                    (mkRequest (Some ("sns", "guess")) (notification bounceText)))).
    + simpl; discriminate.
    + simpl; discriminate.
    + right. exists "sns", "guess". split; [reflexivity|].
      right. simpl; discriminate.
  - destruct (proj2 (basic_auth_gate sampleDecode sampleUnmarshal sampleHandler
                       (mkRequest None (notification bounceText)))
                (or_introl eq_refl)) as [Hsame _].
    exact (Hsame (Some ("sns", "guess")) None (notification bounceText)).
Defined.

Lemma Register_fresh_or_panic_witness :
  Register sampleHandler "news@example.com" noError = Panic "news@example.com" /\
  (exists h', Register sampleHandler "forum@example.com" noError = Started h' /\
              m h' !! "forum@example.com" = Some (mkChan 100 []) /\
              m h' !! "news@example.com" = m sampleHandler !! "news@example.com" /\
              workers h' =
                workers sampleHandler ++ [mkWorker "forum@example.com" noError]).
Proof.
  split.
  - apply (proj1 (Register_fresh_or_panic sampleHandler "news@example.com" noError)
             (makeChan 100)).
    vm_compute; reflexivity.
  - destruct (proj2 (Register_fresh_or_panic sampleHandler "forum@example.com"
                       noError)) as (h' & Hreg & Hnew & Hold & Hw & _).
    + vm_compute; reflexivity.
    + exists h'. split; [exact Hreg|]. split; [exact Hnew|].
      split; [apply Hold; discriminate | exact Hw].
Defined.

(** * Startup, workers and what a request leaves alone *)

(** ** Strings *)

Lemma append_String c a b :
  (String c a ++ b)%string = String c (a ++ b)%string.
Proof. reflexivity. Qed.

Lemma append_Empty b : (EmptyString ++ b)%string = b.
Proof. reflexivity. Qed.

Lemma prefix_split p s :
  String.prefix p s = true <-> exists post, s = (p ++ post)%string.
Proof.
  revert s. induction p as [|c p IH]; intros s.
  - split; [intros _; by exists s | by destruct s].
  - destruct s as [|c' s]; simpl; [split; [done | by intros [post [=]]]|].
    destruct (Ascii.ascii_dec c c') as [->|Hne].
    + rewrite IH. split; intros [post Hs]; exists post;
        rewrite append_String in *; congruence.
    + split; [done | intros [post [=]]; congruence].
Qed.

Lemma Contains_split s sub :
  Contains s sub = true <->
  exists pre post, s = (pre ++ sub ++ post)%string.
Proof.
  induction s as [|c s IH]; cbn [Contains].
  - rewrite orb_false_r, prefix_split. split.
    + intros [post Hs]. by exists EmptyString, post.
    + intros (pre & post & Hs). destruct pre; [by exists post | done].
  - rewrite orb_true_iff, prefix_split, IH. split.
    + intros [[post Hs]|(pre & post & Hs)].
      * by exists EmptyString, post.
      * exists (String c pre), post. by rewrite append_String, Hs.
    + intros (pre & post & Hs). destruct pre as [|c' pre].
      * left. by exists post.
      * right. exists pre, post. rewrite append_String in Hs. congruence.
Qed.

Lemma limitRead_idem n s : limitRead n (limitRead n s) = limitRead n s.
Proof.
  revert n. induction s as [|c s IH]; intros n; simpl; [done|].
  destruct (N.eqb_spec n 0) as [->|Hn]; [done|]. simpl.
  destruct (N.eqb_spec n 0); [done|]. by rewrite IH.
Qed.

Lemma limitRead_prefix n s :
  exists rest, s = (limitRead n s ++ rest)%string.
Proof.
  revert n. induction s as [|c s IH]; intros n; simpl.
  - by exists EmptyString.
  - destruct (N.eqb n 0); [by eexists|].
    destruct (IH (N.pred n)) as [rest Hs]. exists rest.
    rewrite append_String. congruence.
Qed.

Lemma limitRead_length n s :
  (N.of_nat (String.length (limitRead n s)) <= n)%N.
Proof.
  revert n. induction s as [|c s IH]; intros n; simpl; [lia|].
  destruct (N.eqb_spec n 0) as [->|Hn]; simpl; [lia|].
  specialize (IH (N.pred n)). lia.
Qed.

Lemma CountByte_app a b c :
  CountByte (a ++ b)%string c = CountByte a c + CountByte b c.
Proof.
  induction a as [|c' a IH]; [done|].
  rewrite append_String. simpl. rewrite IH. lia.
Qed.

Lemma CountByte_one s c :
  CountByte s c = 1 <->
  exists pre post, s = (pre ++ String c post)%string /\
                   CountByte pre c = 0 /\ CountByte post c = 0.
Proof.
  split.
  - induction s as [|c' s IH]; simpl; [done|].
    destruct (Ascii.eqb_spec c' c) as [->|Hne]; simpl; intros Hn.
    + exists EmptyString, s. repeat split. lia.
    + destruct (IH Hn) as (pre & post & -> & Hpre & Hpost).
      exists (String c' pre), post. simpl.
      destruct (Ascii.eqb_spec c' c); [done|]. done.
  - intros (pre & post & -> & Hpre & Hpost).
    rewrite CountByte_app. simpl. rewrite Ascii.eqb_refl. lia.
Qed.

(** ** The configuration *)

Lemma rangeCheck_None entries :
  rangeCheck entries = None <->
  Forall (fun kv => checkRecord (fst kv) (snd kv) = None) entries.
Proof.
  induction entries as [|[k v] rest IH]; simpl.
  - split; [constructor | done].
  - rewrite Forall_cons. simpl. destruct (checkRecord k v).
    + split; [done | by intros [? _]].
    + rewrite IH. split; [by split | by intros [_ ?]].
Qed.

Lemma rangeCheck_Some entries e :
  rangeCheck entries = Some e ->
  exists k v, (k, v) ∈ entries /\ checkRecord k v = Some e.
Proof.
  induction entries as [|[k v] rest IH]; simpl; [done|].
  destruct (checkRecord k v) eqn:Hc.
  - intros [= <-]. exists k, v. split; [left | done].
  - intros He. destruct (IH He) as (k' & v' & Hin & Hc').
    exists k', v'. split; [by right | done].
Qed.

(** X1.  A record passes the tests of [readConfig] exactly when its dsn is
    not empty and its sql is some text, one question mark, and some text,
    with no question mark in either text. *)
Theorem checkRecord_one_placeholder k v :
  checkRecord k v = None <->
  DSN v <> EmptyString /\
  exists pre post,
    Query v = (pre ++ String "?" post)%string /\
    CountByte pre "?" = 0 /\ CountByte post "?" = 0.
Proof.
  unfold checkRecord. rewrite <- CountByte_one.
  repeat case_bool_decide; simpl.
  - split; [done | by intros [? _]].
  - split; [done|]. intros [_ Hone]. replace (Query v) with EmptyString in Hone.
    done.
  - split; [done | by intros [? _]].
  - destruct (Nat.eqb_spec (CountByte (Query v) "?") 1); simpl.
    + by split.
    + split; [done | by intros [_ ?]].
Qed.

Section ConfigFacts.
Variable osOpen : string -> string + string.
Variable jsonDecodeConfig : string -> string + gmap string cred.
Variable rangeOf : gmap string cred -> list (string * cred).
Hypothesis rangeOf_perm : forall out, rangeOf out ≡ₚ map_to_list out.

Abbreviation read := (readConfig osOpen jsonDecodeConfig rangeOf).

(** X2.  Whatever the order in which the map is ranged over, [readConfig]
    returns a configuration exactly when the file opens, its first 2 MiB
    decode to a map that is not empty, and every record of the map passes
    the tests; what it returns is the decoded map itself. *)
Theorem readConfig_accepts name out :
  read name = inr out <->
  exists content,
    osOpen name = inr content /\
    jsonDecodeConfig (limitRead bodyLimit content) = inr out /\
    out <> ∅ /\
    map_Forall (fun k v => checkRecord k v = None) out.
Proof.
  unfold readConfig.
  destruct (osOpen name) as [err|content]; simpl;
    [split; [done | by intros (c & [=] & _)]|].
  destruct (jsonDecodeConfig (limitRead bodyLimit content)) as [err|out']
    eqn:Hdec; simpl.
  { split; [done|]. intros (c & [= <-] & Hd & _). congruence. }
  assert (Hall : rangeCheck (rangeOf out') = None <->
                 map_Forall (fun k v => checkRecord k v = None) out').
  { rewrite rangeCheck_None, map_Forall_to_list, (rangeOf_perm out').
    apply Forall_proper; [|done]. by intros [k v]. }
  case_bool_decide as Hsize.
  - apply map_size_empty_iff in Hsize.
    split; [done|]. intros (c & [= <-] & Hd & Hne & _). congruence.
  - rewrite map_size_empty_iff in Hsize.
    destruct (rangeCheck (rangeOf out')) as [e|] eqn:Hr.
    + split; [done|]. intros (c & [= <-] & Hd & _ & Hok).
      assert (out = out') as -> by congruence.
      apply Hall in Hok. done.
    + split.
      * intros [= <-]. exists content. repeat split; try done. by apply Hall.
      * intros (c & [= <-] & Hd & _). congruence.
Qed.

(** X3.  When [readConfig] rejects a record, the key it names is a key of
    the decoded map, and its record has an empty field (for "invalid
    record") or has both fields set and not exactly one question mark in
    the sql (for "invalid sql"). *)
Theorem readConfig_error_names_record name k :
  (read name = inl (InvalidRecord k) ->
   exists content out v,
     osOpen name = inr content /\
     jsonDecodeConfig (limitRead bodyLimit content) = inr out /\
     out !! k = Some v /\
     (Query v = EmptyString \/ DSN v = EmptyString)) /\
  (read name = inl (InvalidSQL k) ->
   exists content out v,
     osOpen name = inr content /\
     jsonDecodeConfig (limitRead bodyLimit content) = inr out /\
     out !! k = Some v /\
     Query v <> EmptyString /\ DSN v <> EmptyString /\
     CountByte (Query v) "?" <> 1).
Proof.
  unfold readConfig.
  destruct (osOpen name) as [err|content] eqn:Hopen; [done|].
  destruct (jsonDecodeConfig (limitRead bodyLimit content)) as [err|out]
    eqn:Hdec; [done|].
  case_bool_decide; [done|].
  destruct (rangeCheck (rangeOf out)) as [e|] eqn:Hr; [|done].
  apply rangeCheck_Some in Hr as (k' & v & Hin & Hc).
  rewrite (rangeOf_perm out) in Hin. apply elem_of_map_to_list in Hin.
  unfold checkRecord in Hc.
  split; intros [= ->]; exists content, out, v.
  - repeat case_bool_decide; simpl in Hc.
    + injection Hc as <-. repeat split; try done. by left.
    + injection Hc as <-. repeat split; try done. by left.
    + injection Hc as <-. repeat split; try done. by right.
    + by destruct (CountByte (Query v) "?" =? 1)%nat.
  - repeat case_bool_decide; simpl in Hc; try done.
    destruct (Nat.eqb_spec (CountByte (Query v) "?") 1); simpl in Hc; [done|].
    injection Hc as <-. repeat split; done.
Qed.
End ConfigFacts.

(** ** Startup *)

Section MainFacts.
Variable sqlBlacklister : string -> string -> string + blacklister.

Abbreviation each := (registerEach sqlBlacklister).

(** Records with distinct keys, none of them registered yet, whose
    connection tests all pass: every one is registered. *)
Lemma registerEach_serving h entries :
  NoDup entries.*1 ->
  (forall k, k ∈ entries.*1 -> m h !! k = None) ->
  Forall (fun kv => exists f,
            sqlBlacklister (DSN (snd kv)) (Query (snd kv)) = inr f) entries ->
  exists h',
    each h entries = Serving h' /\
    (forall k, k ∈ entries.*1 -> m h' !! k = Some (makeChan 100)) /\
    (forall k, k ∉ entries.*1 -> m h' !! k = m h !! k) /\
    map w_key (workers h') = map w_key (workers h) ++ entries.*1 /\
    user h' = user h /\ pass h' = pass h /\ done_ h' = done_ h.
Proof.
  revert h. induction entries as [|[k v] rest IH]; intros h Hnd Hfresh Hok.
  - exists h. simpl. rewrite app_nil_r. repeat split; try done.
    intros k Hk. by apply elem_of_nil in Hk.
  - csimpl in Hnd.
    apply NoDup_cons in Hnd as [Hk Hnd].
    apply Forall_cons in Hok as [[f Hf] Hok]. simpl in Hf.
    simpl. rewrite Hf. unfold Register.
    rewrite (Hfresh k) by (csimpl; left).
    set (h1 := mkHandler (<[k:=makeChan 100]> (m h)) (done_ h)
                 (workers h ++ [mkWorker k f]) (user h) (pass h)).
    destruct (IH h1 Hnd) as (h' & Hrun & Hin & Hout & Hw & Hu & Hp & Hd);
      [|done|].
    { intros k' Hk'. simpl. rewrite lookup_insert_ne by congruence.
      apply Hfresh. csimpl. by right. }
    exists h'. split; [done|]. repeat split; try done.
    + intros k' Hk'. csimpl in Hk'.
      apply elem_of_cons in Hk' as [->|Hk']; [|by apply Hin].
      rewrite (Hout k Hk). simpl. by rewrite lookup_insert_eq.
    + intros k' Hk'. csimpl in Hk'.
      apply not_elem_of_cons in Hk' as [Hne Hk'].
      rewrite (Hout k' Hk'). simpl. by rewrite lookup_insert_ne.
    + rewrite Hw. simpl. rewrite map_app, <- app_assoc. done.
Qed.

(** Records with distinct keys, none registered yet: the loop never ends in
    a panic; it stops at a record whose connection test fails, or registers
    all, in which case all the tests passed. *)
Lemma registerEach_outcomes h entries :
  NoDup entries.*1 ->
  (forall k, k ∈ entries.*1 -> m h !! k = None) ->
  match each h entries with
  | Serving _ =>
      Forall (fun kv => exists f,
                sqlBlacklister (DSN (snd kv)) (Query (snd kv)) = inr f) entries
  | FatalConnect k err =>
      exists v, (k, v) ∈ entries /\
                sqlBlacklister (DSN v) (Query v) = inl err
  | Panicked _ | FatalConfig _ => False
  end.
Proof.
  revert h. induction entries as [|[k v] rest IH]; intros h Hnd Hfresh.
  - simpl. constructor.
  - csimpl in Hnd.
    apply NoDup_cons in Hnd as [Hk Hnd].
    simpl. destruct (sqlBlacklister (DSN v) (Query v)) as [err|f] eqn:Hf.
    { exists v. split; [left | done]. }
    unfold Register. rewrite (Hfresh k) by (csimpl; left).
    set (h1 := mkHandler (<[k:=makeChan 100]> (m h)) (done_ h)
                 (workers h ++ [mkWorker k f]) (user h) (pass h)).
    specialize (IH h1 Hnd).
    destruct (each h1 rest) as [e|k' err|k'|h'].
    + apply IH. intros k' Hk'. simpl. rewrite lookup_insert_ne by congruence.
      apply Hfresh. csimpl. by right.
    + destruct IH as (v' & Hin & Hv').
      { intros k0 Hk0. simpl. rewrite lookup_insert_ne by congruence.
        apply Hfresh. csimpl. by right. }
      exists v'. split; [by right | done].
    + apply IH. intros k0 Hk0. simpl. rewrite lookup_insert_ne by congruence.
      apply Hfresh. csimpl. by right.
    + apply Forall_cons. split; [simpl; eauto|].
      apply IH. intros k0 Hk0. simpl. rewrite lookup_insert_ne by congruence.
      apply Hfresh. csimpl. by right.
Qed.

(** The workers a completed loop has started: for each record, in the
    order of the loop, the worker bound to the record's key and to the
    function [sqlBlacklister] gave for the record. *)
Lemma registerEach_workers h entries h' :
  each h entries = Serving h' ->
  workers h' =
    workers h ++
    omap (fun kv : string * cred =>
            match sqlBlacklister (DSN (snd kv)) (Query (snd kv)) with
            | inr f => Some (mkWorker (fst kv) f)
            | inl _ => None
            end) entries.
Proof.
  revert h. induction entries as [|[k v] rest IH]; intros h; simpl.
  - intros [= <-]. by rewrite app_nil_r.
  - destruct (sqlBlacklister (DSN v) (Query v)) as [err|f]; [done|].
    unfold Register. destruct (m h !! k); [done|].
    intros Hrun. rewrite (IH _ Hrun). simpl. by rewrite <- app_assoc.
Qed.

Lemma range_keys (creds : gmap string cred) (l : list (string * cred)) k :
  l ≡ₚ map_to_list creds -> k ∈ l.*1 <-> k ∈ dom creds.
Proof.
  intros Hperm. rewrite elem_of_dom, list_elem_of_fmap. split.
  - intros ([k' v] & -> & Hin). rewrite Hperm in Hin.
    apply elem_of_map_to_list in Hin. by exists v.
  - intros [v Hv]. exists (k, v). split; [done|].
    rewrite Hperm. by apply elem_of_map_to_list.
Qed.

Lemma range_NoDup (creds : gmap string cred) (l : list (string * cred)) :
  l ≡ₚ map_to_list creds -> NoDup l.*1.
Proof. intros ->. apply NoDup_fst_map_to_list. Qed.

(** X4.  Starting from a configuration map, in whatever order it is ranged
    over, the setup of [main] never panics.  Either a connection test fails
    and the fatal message names a key of the map whose record failed it, or
    the handler that serves has exactly the keys of the map, each with an
    empty queue of capacity 100, one worker per key, the credentials of the
    flags, and is not cancelled. *)
Theorem mainSetup_outcome creds rangeOf User Pass :
  rangeOf creds ≡ₚ map_to_list creds ->
  match mainSetup sqlBlacklister (inr creds) rangeOf User Pass with
  | Serving h =>
      dom (m h) = dom creds /\
      (forall k, k ∈ dom creds -> m h !! k = Some (makeChan 100)) /\
      map w_key (workers h) ≡ₚ (map_to_list creds).*1 /\
      user h = User /\ pass h = Pass /\ done_ h = false
  | FatalConnect k err =>
      exists v, creds !! k = Some v /\
                sqlBlacklister (DSN v) (Query v) = inl err
  | Panicked _ | FatalConfig _ => False
  end.
Proof.
  intros Hperm. unfold mainSetup.
  set (h0 := withBasicAuth newHandler User Pass).
  assert (Hfresh : forall k, k ∈ (rangeOf creds).*1 -> m h0 !! k = None)
    by (intros k _; apply lookup_empty).
  pose proof (range_NoDup _ _ Hperm) as Hnd.
  pose proof (registerEach_outcomes h0 _ Hnd Hfresh) as Hout.
  destruct (each h0 (rangeOf creds)) as [e|k err|k|h] eqn:Hrun;
    try done.
  - destruct Hout as (v & Hin & Hv). exists v. split; [|done].
    rewrite Hperm in Hin. by apply elem_of_map_to_list.
  - destruct (registerEach_serving h0 _ Hnd Hfresh Hout)
      as (h' & Hrun' & Hin & Hother & Hw & Hu & Hp & Hd).
    rewrite Hrun in Hrun'. injection Hrun' as <-.
    repeat split; try done.
    + apply set_eq. intros k. rewrite <- (range_keys _ _ k Hperm).
      rewrite elem_of_dom.
      destruct (decide (k ∈ (rangeOf creds).*1)) as [Hk|Hk].
      * rewrite (Hin k Hk). split; [done | by eexists].
      * rewrite (Hother k Hk). simpl. rewrite lookup_empty.
        split; [by intros [? ?] | done].
    + intros k Hk. apply Hin. by apply (range_keys _ _ k Hperm).
    + rewrite Hw. simpl. by rewrite Hperm.
Qed.

(** X5.  The handler that serves does not depend on the order in which
    the configuration map is ranged over: if the setup succeeds for one
    order, it succeeds for every other, with the same registry, credentials
    and cancellation flag, and with the same workers up to their order, each
    bound to the same key and the same function. *)
Theorem mainSetup_order_irrelevant creds range1 range2 User Pass h1 :
  range1 creds ≡ₚ map_to_list creds ->
  range2 creds ≡ₚ map_to_list creds ->
  mainSetup sqlBlacklister (inr creds) range1 User Pass = Serving h1 ->
  exists h2,
    mainSetup sqlBlacklister (inr creds) range2 User Pass = Serving h2 /\
    m h2 = m h1 /\
    user h2 = user h1 /\ pass h2 = pass h1 /\ done_ h2 = done_ h1 /\
    workers h2 ≡ₚ workers h1 /\
    (forall w, w ∈ workers h2 ->
       exists v, creds !! w_key w = Some v /\
                 sqlBlacklister (DSN v) (Query v) = inr (w_f w)).
Proof.
  intros Hp1 Hp2 Hrun1. unfold mainSetup in *.
  set (h0 := withBasicAuth newHandler User Pass) in *.
  assert (Hfresh : forall (l : list (string * cred)) k,
            k ∈ l.*1 -> m h0 !! k = None)
    by (intros l k _; apply lookup_empty).
  pose proof (registerEach_outcomes h0 _ (range_NoDup _ _ Hp1)
                (Hfresh (range1 creds))) as Hok.
  rewrite Hrun1 in Hok.
  destruct (registerEach_serving h0 _ (range_NoDup _ _ Hp1)
              (Hfresh (range1 creds)) Hok)
    as (h1' & Hrun1' & Hin1 & Hout1 & Hw1 & Hu1 & Hpw1 & Hd1).
  rewrite Hrun1 in Hrun1'. injection Hrun1' as <-.
  assert (Hok2 : Forall (fun kv => exists f,
            sqlBlacklister (DSN (snd kv)) (Query (snd kv)) = inr f)
            (range2 creds)) by (by rewrite Hp2, <- Hp1).
  destruct (registerEach_serving h0 _ (range_NoDup _ _ Hp2)
              (Hfresh (range2 creds)) Hok2)
    as (h2 & Hrun2 & Hin2 & Hout2 & Hw2 & Hu2 & Hpw2 & Hd2).
  pose proof (registerEach_workers _ _ _ Hrun1) as Hws1.
  pose proof (registerEach_workers _ _ _ Hrun2) as Hws2.
  exists h2. split; [done|]. repeat split; try congruence.
  - apply map_eq. intros k.
    destruct (decide (k ∈ dom creds)) as [Hk|Hk].
    + rewrite Hin2 by (by apply (range_keys _ _ k Hp2)).
      by rewrite Hin1 by (by apply (range_keys _ _ k Hp1)).
    + rewrite Hout2 by (by rewrite (range_keys _ _ k Hp2)).
      by rewrite Hout1 by (by rewrite (range_keys _ _ k Hp1)).
  - rewrite Hws1, Hws2. by rewrite Hp1, Hp2.
  - intros w Hw. rewrite Hws2 in Hw. simpl in Hw.
    apply list_elem_of_omap in Hw as ([k v] & Hin & Hwv). simpl in Hwv.
    rewrite Hp2 in Hin. apply elem_of_map_to_list in Hin.
    destruct (sqlBlacklister (DSN v) (Query v)) as [err|f] eqn:Hf; [done|].
    injection Hwv as <-. simpl. by exists v.
Qed.
End MainFacts.

(** ** The worker *)

Lemma calls_app t1 t2 : calls (t1 ++ t2) = calls t1 ++ calls t2.
Proof. apply omap_app. Qed.

Lemma callErrors_app t1 t2 :
  callErrors (t1 ++ t2) = callErrors t1 ++ callErrors t2.
Proof. apply omap_app. Qed.

(** A worker that takes [fuel] turns on a queue holding the addresses
    [l] calls its blacklister on the first [fuel] of them, once each and in
    the order they were queued, whether or not a call fails; it logs the
    failures, in order; it leaves the remaining addresses in the queue in
    their order, and touches no other queue and nothing else of the
    handler. *)
Lemma workerLoop_spec fuel h w n l :
  m h !! w_key w = Some (mkChan n l) ->
  m (fst (workerLoop fuel h w)) !! w_key w = Some (mkChan n (drop fuel l)) /\
  (forall k, k <> w_key w ->
     m (fst (workerLoop fuel h w)) !! k = m h !! k) /\
  calls (snd (workerLoop fuel h w)) =
    map (fun a => (w_key w, a)) (take fuel l) /\
  callErrors (snd (workerLoop fuel h w)) =
    omap (fun a => (fun err => (a, err)) <$> w_f w a) (take fuel l) /\
  workers (fst (workerLoop fuel h w)) = workers h /\
  user (fst (workerLoop fuel h w)) = user h /\
  pass (fst (workerLoop fuel h w)) = pass h /\
  done_ (fst (workerLoop fuel h w)) = done_ h.
Proof.
  revert h l. induction fuel as [|fuel IH]; intros h l Hq.
  - simpl. rewrite drop_0. repeat split; done.
  - simpl. unfold workerRecv. rewrite Hq.
    destruct l as [|a l]; [simpl; by repeat split|].
    set (h1 := withM h (<[w_key w:=mkChan n l]> (m h))).
    destruct (IH h1 l) as (Hq' & Hother & Hcalls & Herrs & Hw & Hu & Hp & Hd).
    { simpl. by rewrite lookup_insert_eq. }
    destruct (workerLoop fuel h1 w) as [h2 t2]. cbn [fst snd] in *.
    split; [exact Hq'|]. split; [|split; [|split; [|done]]].
    + intros k Hk. rewrite (Hother k Hk). simpl. by rewrite lookup_insert_ne.
    + change (take (S fuel) (a :: l)) with (a :: take fuel l).
      change (Call (w_key w) a :: ?x ++ t2)
        with ([Call (w_key w) a] ++ x ++ t2).
      rewrite !calls_app, Hcalls. by destruct (w_f w a).
    + change (take (S fuel) (a :: l)) with (a :: take fuel l).
      change (Call (w_key w) a :: ?x ++ t2)
        with ([Call (w_key w) a] ++ x ++ t2).
      rewrite !callErrors_app, Herrs. csimpl. by destruct (w_f w a).
Qed.

(** X6.  A worker that takes [fuel] turns on a queue holding the addresses
    [l] calls its blacklister on the first [fuel] of them, once each and in
    the order they were queued, whether or not a call fails; it logs the
    failures, in order; it leaves the remaining addresses in the queue in
    their order, and touches no other queue and nothing else of the
    handler. *)
Theorem worker_fifo fuel h w n l :
  m h !! w_key w = Some (mkChan n l) ->
  m (fst (workerLoop fuel h w)) !! w_key w = Some (mkChan n (drop fuel l)) /\
  (forall k, k <> w_key w ->
     m (fst (workerLoop fuel h w)) !! k = m h !! k) /\
  calls (snd (workerLoop fuel h w)) =
    map (fun a => (w_key w, a)) (take fuel l) /\
  callErrors (snd (workerLoop fuel h w)) =
    omap (fun a => (fun err => (a, err)) <$> w_f w a) (take fuel l) /\
  workers (fst (workerLoop fuel h w)) = workers h /\
  user (fst (workerLoop fuel h w)) = user h /\
  pass (fst (workerLoop fuel h w)) = pass h /\
  done_ (fst (workerLoop fuel h w)) = done_ h.
Proof. apply workerLoop_spec. Qed.

(** ** What a request does and leaves alone *)

Lemma fetched_app t1 t2 : fetched (t1 ++ t2) = fetched t1 ++ fetched t2.
Proof. apply omap_app. Qed.

Section RangeQuiet.
Context {R : Type}.
Variable emailOf : R -> string.
Variable logLine : string -> R -> event.
Variable s : site.
Hypothesis logLine_attempt :
  forall sender r, attemptOf (logLine sender r) = Some (sender, emailOf r).

(** A loop over recipients fetches nothing. *)
Lemma rangeSend_fetched sender key ch rs :
  fetched (snd (rangeSend emailOf logLine s sender key ch rs)) = [].
Proof.
  revert ch. induction rs as [|r rs IH]; intros ch; [done|]. simpl.
  assert (Hline : fetched [logLine sender r] = []).
  { specialize (logLine_attempt sender r).
    by destruct (logLine sender r). }
  unfold sendOrDrop. destruct (trySend ch (emailOf r)) as [ch1|].
  - specialize (IH ch1).
    destruct (rangeSend emailOf logLine s sender key ch1 rs) as [ch2 t2].
    cbn [snd] in *.
    change (logLine sender r :: [Send s key (emailOf r)] ++ t2)
      with ([logLine sender r] ++ [Send s key (emailOf r)] ++ t2).
    by rewrite !fetched_app, Hline, IH.
  - specialize (IH ch).
    destruct (rangeSend emailOf logLine s sender key ch rs) as [ch2 t2].
    cbn [snd] in *.
    change (logLine sender r :: [LogOverflow sender (emailOf r)] ++ t2)
      with ([logLine sender r] ++ [LogOverflow sender (emailOf r)] ++ t2).
    by rewrite !fetched_app, Hline, IH.
Qed.
End RangeQuiet.

Lemma dispatch_fetched sender key ch msg :
  fetched (snd (dispatch sender key ch msg)) = [].
Proof.
  unfold dispatch, bounceLoop, complaintLoop.
  pose proof (rangeSend_fetched br_Email
    (fun sender r => LogBounce sender (br_Email r) (br_Diagnostic r))
    AtBounce bounce_attempt sender key ch (bounced msg)) as H1.
  destruct (rangeSend br_Email _ AtBounce sender key ch (bounced msg))
    as [ch1 t1].
  pose proof (rangeSend_fetched cr_Email
    (fun sender r => LogComplaint sender (cr_Email r) (cr_Feedback r))
    AtComplaint complaint_attempt sender key ch1 (complained msg)) as H2.
  destruct (rangeSend cr_Email _ AtComplaint sender key ch1 (complained msg))
    as [ch2 t2].
  simpl in *. by rewrite fetched_app, H1, H2.
Qed.

Lemma withM_same h : withM h (m h) = h.
Proof. by destruct h. Qed.

Section ServeCases.
Variable jsonDecode : string -> string + snsMsg.
Variable jsonUnmarshal : string -> string + payload.

Abbreviation serve := (ServeHTTP jsonDecode jsonUnmarshal).
Abbreviation decodesEnvelope := (decodesEnvelope jsonDecode).
Abbreviation decodesPayload := (decodesPayload jsonDecode jsonUnmarshal).

(** Every way a request can go, with what comes out of it. *)
Lemma serve_cases h r :
  (authRequired h && authFails h r = true /\
   serve h r =
     (h, httpError [("WWW-Authenticate", basicRealm)] StatusUnauthorized, [])) \/
  (exists err,
     passesAuth h r /\
     jsonDecode (limitRead bodyLimit (Body r)) = inl err /\
     serve h r = (h, httpError [] StatusBadRequest, [LogPrint err])) \/
  (exists sns,
     decodesEnvelope h r sns /\
     sns_Type sns = "SubscriptionConfirmation" /\
     serve h r =
       (h, writeHeader StatusNoContent,
        if Contains (sns_URL sns) "amazonaws.com"
        then [LogConfirm (sns_URL sns); HttpGet (sns_URL sns)] else [])) \/
  (exists sns,
     decodesEnvelope h r sns /\
     sns_Type sns <> "SubscriptionConfirmation" /\
     sns_Type sns <> "Notification" /\
     serve h r =
       (h, httpError [] StatusBadRequest, [LogUnsupportedSNS (sns_Type sns)])) \/
  (exists sns err,
     decodesEnvelope h r sns /\
     sns_Type sns = "Notification" /\
     jsonUnmarshal (sns_Message sns) = inl err /\
     serve h r = (h, httpError [] StatusBadRequest, [LogPrint err])) \/
  (exists msg,
     decodesPayload h r msg /\
     actionable msg = false /\
     serve h r =
       (h, writeHeader StatusNoContent, [LogUnsupportedMsg (msg_Type msg)])) \/
  (exists msg,
     decodesPayload h r msg /\
     actionable msg = true /\
     resolve (m h) (Mail_Source msg) = None /\
     serve h r =
       (h, writeHeader StatusNoContent, [LogUnconfigured (Mail_Source msg)])) \/
  (exists msg key ch,
     decodesPayload h r msg /\
     actionable msg = true /\
     resolve (m h) (Mail_Source msg) = Some (key, ch) /\
     serve h r =
       (withM h (<[key := fst (dispatch (Mail_Source msg) key ch msg)]> (m h)),
        writeHeader StatusNoContent,
        snd (dispatch (Mail_Source msg) key ch msg))).
Proof.
  destruct (authRequired h && authFails h r) eqn:Hauth.
  { left. split; [done|]. unfold ServeHTTP. by rewrite Hauth. }
  right.
  destruct (jsonDecode (limitRead bodyLimit (Body r))) as [err|sns] eqn:Hdec.
  { left. exists err. repeat split; try done.
    unfold ServeHTTP. by rewrite Hauth, Hdec. }
  right.
  assert (Henv : decodesEnvelope h r sns) by done.
  rewrite (serve_envelope _ _ _ _ _ Henv). unfold serveEnvelope.
  case_bool_decide as Hsc; [left; by exists sns|]. right.
  case_bool_decide as Hn; [|left; by exists sns]. right.
  destruct (jsonUnmarshal (sns_Message sns)) as [err|msg] eqn:Hmsg.
  { left. by exists sns, err. }
  right.
  assert (Hpay : decodesPayload h r msg) by (by exists sns).
  destruct (actionable msg) eqn:Hact.
  - right.
    destruct (resolve (m h) (Mail_Source msg)) as [[key ch]|] eqn:Hres.
    + right. exists msg, key, ch. repeat split; try done.
      by apply servePayload_resolved.
    + left. exists msg. repeat split; try done.
      by apply servePayload_unresolved.
  - left. exists msg. repeat split; try done. by apply servePayload_ignored.
Qed.

(** X7.  A request leaves the registry with the keys it had, every queue
    with its capacity and with what it held as a prefix of what it holds
    now, and the workers, the credentials and the cancellation flag as they
    were.  A request that sends nothing leaves the handler as it was. *)
Theorem serve_frame h r :
  dom (m (fst (fst (serve h r)))) = dom (m h) /\
  (forall k ch, m h !! k = Some ch ->
     exists ch', m (fst (fst (serve h r))) !! k = Some ch' /\
                 cap ch' = cap ch /\ buf ch `prefix_of` buf ch') /\
  workers (fst (fst (serve h r))) = workers h /\
  user (fst (fst (serve h r))) = user h /\
  pass (fst (fst (serve h r))) = pass h /\
  done_ (fst (fst (serve h r))) = done_ h /\
  (sent (snd (serve h r)) = [] -> fst (fst (serve h r)) = h).
Proof.
  assert (Hsame : fst (fst (serve h r)) = h ->
    dom (m (fst (fst (serve h r)))) = dom (m h) /\
    (forall k ch, m h !! k = Some ch ->
       exists ch', m (fst (fst (serve h r))) !! k = Some ch' /\
                   cap ch' = cap ch /\ buf ch `prefix_of` buf ch') /\
    workers (fst (fst (serve h r))) = workers h /\
    user (fst (fst (serve h r))) = user h /\
    pass (fst (fst (serve h r))) = pass h /\
    done_ (fst (fst (serve h r))) = done_ h /\
    (sent (snd (serve h r)) = [] -> fst (fst (serve h r)) = h)).
  { intros ->. repeat split; try done. intros k ch Hk. by exists ch. }
  destruct (serve_cases h r)
    as [[_ E]|[(? & _ & _ & E)|[(? & _ & _ & E)|[(? & _ & _ & _ & E)|
        [(? & ? & _ & _ & _ & E)|[(? & _ & _ & E)|[(? & _ & _ & _ & E)|
        (msg & key & ch & _ & _ & Hres & E)]]]]]]];
    try (apply Hsame; by rewrite E).
  rewrite E. simpl. clear Hsame E.
  pose proof (resolve_lookup _ _ _ _ Hres) as Hch.
  rewrite dispatch_chan.
  repeat split; try done.
  - apply dom_insert_lookup_L. by eexists.
  - intros k ch0 Hk. destruct (decide (k = key)) as [->|Hne].
    + rewrite lookup_insert_eq. eexists. split; [done|].
      assert (ch0 = ch) as -> by congruence.
      split; [done|]. simpl. by eexists.
    + rewrite lookup_insert_ne by done. by exists ch0.
  - rewrite dispatch_sent. intros Hnil.
    apply (f_equal (map snd)) in Hnil. rewrite map_map in Hnil.
    simpl in Hnil. rewrite map_id in Hnil. rewrite Hnil, app_nil_r.
    replace (mkChan (cap ch) (buf ch)) with ch by (by destruct ch).
    rewrite insert_id by done. apply withM_same.
Qed.

(** X8.  A request is answered in one of three ways: 204 with no header and
    no body; 400 with no header and the text "Bad Request"; 401 with the
    challenge header and the text "Unauthorized", and then nothing was
    logged or done. *)
Theorem serve_three_answers h r :
  snd (fst (serve h r)) = mkResponse 204 [] EmptyString \/
  snd (fst (serve h r)) = mkResponse 400 [] ("Bad Request" ++ newline) \/
  (snd (fst (serve h r)) =
     mkResponse 401 [("WWW-Authenticate", basicRealm)]
       ("Unauthorized" ++ newline) /\
   snd (serve h r) = [] /\ fst (fst (serve h r)) = h).
Proof.
  destruct (serve_cases h r)
    as [[_ E]|[(? & _ & _ & E)|[(? & _ & _ & E)|[(? & _ & _ & _ & E)|
        [(? & ? & _ & _ & _ & E)|[(? & _ & _ & E)|[(? & _ & _ & _ & E)|
        (msg & key & ch & _ & _ & _ & E)]]]]]]]; rewrite E; simpl; auto.
Qed.

(** X9.  A request fetches at most one URL, and only as a subscription
    confirmation: if a URL is fetched, the body decoded to an envelope of
    type "SubscriptionConfirmation" with that SubscribeURL, nothing was sent
    to any queue and the handler is unchanged.  A notification never
    fetches. *)
Theorem fetch_only_on_confirmation h r u :
  u ∈ fetched (snd (serve h r)) ->
  exists sns,
    decodesEnvelope h r sns /\
    sns_Type sns = "SubscriptionConfirmation" /\
    sns_URL sns = u /\
    fetched (snd (serve h r)) = [u] /\
    sent (snd (serve h r)) = [] /\
    fst (fst (serve h r)) = h.
Proof.
  destruct (serve_cases h r)
    as [[_ E]|[(? & _ & _ & E)|[(sns & Henv & Hty & E)|[(? & _ & _ & _ & E)|
        [(? & ? & _ & _ & _ & E)|[(? & _ & _ & E)|[(? & _ & _ & _ & E)|
        (msg & key & ch & _ & _ & _ & E)]]]]]]]; rewrite E; simpl;
    try (intros Hin; by apply elem_of_nil in Hin).
  - destruct (Contains (sns_URL sns) "amazonaws.com"); simpl;
      [|intros Hin; by apply elem_of_nil in Hin].
    intros Hin. apply list_elem_of_singleton in Hin as ->. by exists sns.
  - rewrite dispatch_fetched. intros Hin. by apply elem_of_nil in Hin.
Qed.
End ServeCases.

Section ServeMore.
Variable jsonDecode : string -> string + snsMsg.
Variable jsonUnmarshal : string -> string + payload.

Abbreviation serve := (ServeHTTP jsonDecode jsonUnmarshal).
Abbreviation decodesEnvelope := (decodesEnvelope jsonDecode).
Abbreviation decodesPayload := (decodesPayload jsonDecode jsonUnmarshal).

Lemma servePayload_fields h1 h2 msg :
  m h1 = m h2 ->
  servePayload h1 msg =
    (withM h1 (m (fst (fst (servePayload h2 msg)))),
     snd (fst (servePayload h2 msg)), snd (servePayload h2 msg)).
Proof.
  intros Hm. unfold servePayload. rewrite Hm.
  destruct (actionable msg); simpl;
    [|by rewrite <- Hm, withM_same].
  destruct (resolve (m h2) (Mail_Source msg)) as [[key ch]|]; simpl;
    [|by rewrite <- Hm, withM_same].
  by destruct (dispatch (Mail_Source msg) key ch msg).
Qed.

(** What a request does depends on the handler through its registry and
    the outcome of the credentials check only. *)
Lemma serve_fields h1 h2 r1 r2 :
  m h1 = m h2 ->
  Body r1 = Body r2 ->
  authRequired h1 && authFails h1 r1 = authRequired h2 && authFails h2 r2 ->
  serve h1 r1 =
    (withM h1 (m (fst (fst (serve h2 r2)))),
     snd (fst (serve h2 r2)), snd (serve h2 r2)).
Proof.
  intros Hm Hb Hauth. unfold ServeHTTP. rewrite Hauth, Hb.
  destruct (authRequired h2 && authFails h2 r2); simpl;
    [by rewrite <- Hm, withM_same|].
  destruct (jsonDecode (limitRead bodyLimit (Body r2))) as [err|sns]; simpl;
    [by rewrite <- Hm, withM_same|].
  unfold serveEnvelope.
  case_bool_decide; simpl; [by rewrite <- Hm, withM_same|].
  case_bool_decide; simpl; [|by rewrite <- Hm, withM_same].
  destruct (jsonUnmarshal (sns_Message sns)); simpl;
    [by rewrite <- Hm, withM_same|].
  by apply servePayload_fields.
Qed.

(** X10.  No queue ever holds more than its capacity: this holds of the
    new handler and is kept by a registration, by a request and by a turn
    of a worker. *)
Theorem queues_stay_bounded :
  bounded (m newHandler) /\
  (forall h k f h',
     bounded (m h) -> Register h k f = Started h' -> bounded (m h')) /\
  (forall h r, bounded (m h) -> bounded (m (fst (fst (serve h r))))) /\
  (forall h w h' t,
     bounded (m h) -> workerRecv h w = Some (h', t) -> bounded (m h')).
Proof.
  unfold bounded. split; [apply map_Forall_empty|]. split; [|split].
  - intros h k f h' Hb. unfold Register.
    destruct (m h !! k); [done|]. intros [= <-]. simpl.
    apply map_Forall_insert_2; [simpl; lia | done].
  - intros h r Hb.
    destruct (serve_cases jsonDecode jsonUnmarshal h r)
      as [[_ E]|[(? & _ & _ & E)|[(? & _ & _ & E)|[(? & _ & _ & _ & E)|
          [(? & ? & _ & _ & _ & E)|[(? & _ & _ & E)|[(? & _ & _ & _ & E)|
          (msg & key & ch & _ & _ & Hres & E)]]]]]]]; rewrite E; try done.
    simpl. apply map_Forall_insert_2; [|done].
    rewrite dispatch_chan. simpl.
    pose proof (map_Forall_lookup_1 _ _ _ _ Hb (resolve_lookup _ _ _ _ Hres))
      as Hch. simpl in Hch.
    rewrite length_app, length_take. unfold remaining. lia.
  - intros h w h' t Hb. unfold workerRecv.
    destruct (m h !! w_key w) as [[n [|a rest]]|] eqn:Hq; try done.
    intros [= <- _]. simpl.
    apply map_Forall_insert_2; [|done].
    pose proof (map_Forall_lookup_1 _ _ _ _ Hb Hq) as Hch. simpl in *. lia.
Qed.

(** X11.  For a decoded envelope of type "SubscriptionConfirmation", the
    SubscribeURL is fetched exactly when it can be cut into some text, the
    text "amazonaws.com", and some text: the domain may stand anywhere in
    the URL. *)
Theorem confirmation_fetch_anywhere h r sns :
  decodesEnvelope h r sns ->
  sns_Type sns = "SubscriptionConfirmation" ->
  (fetched (snd (serve h r)) = [sns_URL sns] <->
   exists pre post, sns_URL sns = (pre ++ "amazonaws.com" ++ post)%string).
Proof.
  intros Henv Hty.
  rewrite (serve_envelope _ _ _ _ _ Henv).
  rewrite (serveEnvelope_confirmation _ _ _ Hty). simpl.
  rewrite <- Contains_split.
  by destruct (Contains (sns_URL sns) "amazonaws.com").
Qed.

(** X12.  Only the first 2097152 bytes of the body are looked at: a request
    is answered as the request with the same credentials and the body cut
    there, and what is cut to is a prefix of the body of at most that many
    bytes. *)
Theorem body_beyond_cap_ignored h a bd :
  serve h (mkRequest a bd) = serve h (mkRequest a (limitRead bodyLimit bd)) /\
  (N.of_nat (String.length (limitRead bodyLimit bd)) <= 2097152)%N /\
  exists rest, bd = (limitRead bodyLimit bd ++ rest)%string.
Proof.
  split; [|split].
  - unfold ServeHTTP. simpl. by rewrite limitRead_idem.
  - apply (limitRead_length bodyLimit).
  - apply limitRead_prefix.
Qed.

(** X13.  Cancelling does not stop the intake: after [Close] a request is
    answered, logged and queued exactly as before it, and the handler stays
    cancelled. *)
Theorem serve_after_Close h r :
  serve (Close h) r =
    (Close (fst (fst (serve h r))), snd (fst (serve h r)), snd (serve h r)).
Proof.
  rewrite (serve_fields (Close h) h r r) by done.
  pose proof (f_equal (fun x => fst (fst x))
                (serve_fields h h r r eq_refl eq_refl eq_refl)) as E.
  simpl in E. do 2 f_equal.
  transitivity (Close (withM h (m (fst (fst (serve h r))))));
    [reflexivity | by rewrite <- E].
Qed.

(** X14.  With credentials set on the handler, a request that carries
    exactly that user and password is served as the same body is by the
    handler without credentials. *)
Theorem right_credentials_pass h u p bd :
  serve (withBasicAuth h u p) (mkRequest (Some (u, p)) bd) =
    (withBasicAuth
       (fst (fst (serve (withBasicAuth h EmptyString EmptyString)
                    (mkRequest None bd)))) u p,
     snd (fst (serve (withBasicAuth h EmptyString EmptyString)
                 (mkRequest None bd))),
     snd (serve (withBasicAuth h EmptyString EmptyString) (mkRequest None bd))).
Proof.
  set (h0 := withBasicAuth h EmptyString EmptyString).
  rewrite (serve_fields (withBasicAuth h u p) h0 _ (mkRequest None bd));
    [|done|done|].
  - pose proof (f_equal (fun x => fst (fst x))
                  (serve_fields h0 h0 (mkRequest None bd) (mkRequest None bd)
                     eq_refl eq_refl eq_refl)) as E.
    simpl in E. do 2 f_equal.
    transitivity (withBasicAuth
                    (withM h0 (m (fst (fst (serve h0 (mkRequest None bd))))))
                    u p);
      [reflexivity | by rewrite <- E].
  - unfold authRequired, authFails. simpl.
    rewrite (bool_decide_eq_true_2 (u = u)) by done.
    rewrite (bool_decide_eq_true_2 (p = p)) by done. simpl.
    by rewrite andb_false_r.
Qed.

(** X16.  From the request to the blacklister: after a request whose
    payload is dispatched to a resolved queue, the worker of that queue,
    given turns, calls its blacklister on what the queue held and then on
    the addresses of the payload that found room, in that order. *)
Theorem queued_addresses_reach_blacklister h r msg key ch w fuel :
  decodesPayload h r msg ->
  actionable msg = true ->
  resolve (m h) (Mail_Source msg) = Some (key, ch) ->
  w_key w = key ->
  calls (snd (workerLoop fuel (fst (fst (serve h r))) w)) =
    map (fun a => (key, a))
      (take fuel (buf ch ++ take (remaining ch) (addresses msg))).
Proof.
  intros Hdec Hact Hres Hw.
  rewrite (serve_payload _ _ _ _ _ Hdec).
  rewrite (servePayload_resolved _ _ _ _ Hact Hres). cbn [fst snd].
  set (h' := withM h _).
  destruct (workerLoop_spec fuel h' w (cap ch)
              (buf ch ++ take (remaining ch) (addresses msg)))
    as (_ & _ & Hcalls & _).
  - rewrite Hw. subst h'. simpl. by rewrite lookup_insert_eq, dispatch_chan.
  - by rewrite Hcalls, Hw.
Qed.
End ServeMore.

(** ** The request beside the worker *)



Section RangeBesideFacts.
Context {R : Type}.
Variable emailOf : R -> string.
Variable logLine : string -> R -> event.
Variable s : site.
Hypothesis logLine_attempt :
  forall sender r, attemptOf (logLine sender r) = Some (sender, emailOf r).

Abbreviation beside := (rangeSendBeside emailOf logLine s).


End RangeBesideFacts.


(** With a turn of the worker between the two sends, a queue with one free
    slot takes both addresses of a payload; without it, the second is
    dropped. *)
Example beside_worker_takes_more :
  snd (dispatchBeside [0; 1] "news@example.com" "news@example.com"
         (mkChan 100 (replicate 99 "old@example.org")) mixedMsg) =
    [LogBounce "news@example.com" "ann@example.org" "550 no such user";
     Send AtBounce "news@example.com" "ann@example.org";
     LogComplaint "news@example.com" "cyd@example.org" "abuse";
     Send AtComplaint "news@example.com" "cyd@example.org"] /\
  snd (dispatchBeside [] "news@example.com" "news@example.com"
         (mkChan 100 (replicate 99 "old@example.org")) mixedMsg) =
    [LogBounce "news@example.com" "ann@example.org" "550 no such user";
     Send AtBounce "news@example.com" "ann@example.org";
     LogComplaint "news@example.com" "cyd@example.org" "abuse";
     LogOverflow "news@example.com" "cyd@example.org"].
Proof. split; vm_compute; reflexivity. Qed.

(** ** On the sample configuration and traffic *)

Lemma readConfig_accepts_witness :
  readConfig sampleOpen sampleDecodeConfig map_to_list "mapping.json" =
    inr sampleCreds.
Proof.
  apply (proj2 (readConfig_accepts sampleOpen sampleDecodeConfig map_to_list
                  (fun out => Permutation_refl (map_to_list out))
                  "mapping.json" sampleCreds)).
  exists "mapping".
  split; [vm_compute; reflexivity|]. split; [vm_compute; reflexivity|].
  split.
  - unfold sampleCreds. apply insert_non_empty.
  - unfold sampleCreds.
    apply map_Forall_insert_2; [vm_compute; reflexivity|].
    apply map_Forall_insert_2; [vm_compute; reflexivity|].
    apply map_Forall_empty.
Defined.

Lemma readConfig_error_names_record_witness :
  exists content out v,
    sampleOpen "bad.json" = inr content /\
    sampleDecodeConfig (limitRead bodyLimit content) = inr out /\
    out !! "news@example.com" = Some v /\
    Query v <> EmptyString /\ DSN v <> EmptyString /\
    CountByte (Query v) "?" <> 1.
Proof.
  apply (proj2 (readConfig_error_names_record sampleOpen sampleDecodeConfig
                  map_to_list
                  (fun out => Permutation_refl (map_to_list out))
                  "bad.json" "news@example.com")).
  vm_compute; reflexivity.
Defined.

Lemma mainSetup_outcome_witness :
  exists h,
    mainSetup sampleConnect (inr sampleCreds) map_to_list "sns" "secret" =
      Serving h /\
    dom (m h) = dom sampleCreds /\
    user h = "sns" /\ pass h = "secret".
Proof.
  pose proof (mainSetup_outcome sampleConnect sampleCreds map_to_list
                "sns" "secret" (Permutation_refl _)) as Hout.
  destruct (mainSetup sampleConnect (inr sampleCreds) map_to_list
              "sns" "secret") as [e|k err|k|h].
  - destruct Hout.
  - destruct Hout as (v & _ & Hv). discriminate Hv.
  - destruct Hout.
  - destruct Hout as (Hdom & _ & _ & Hu & Hp & _).
    exists h. split; [reflexivity|]. split; [exact Hdom|].
    split; [exact Hu | exact Hp].
Defined.

Lemma mainSetup_order_irrelevant_witness :
  exists h1 h2,
    mainSetup sampleConnect (inr sampleCreds) map_to_list "sns" "secret" =
      Serving h1 /\
    mainSetup sampleConnect (inr sampleCreds)
      (fun creds => reverse (map_to_list creds)) "sns" "secret" = Serving h2 /\
    m h2 = m h1 /\
    workers h2 ≡ₚ workers h1.
Proof.
  assert (E1 : exists h1,
             mainSetup sampleConnect (inr sampleCreds) map_to_list
               "sns" "secret" = Serving h1)
    by (vm_compute; eexists; reflexivity).
  destruct E1 as [h1 E1].
  destruct (mainSetup_order_irrelevant sampleConnect sampleCreds map_to_list
              (fun creds => reverse (map_to_list creds)) "sns" "secret" h1
              (Permutation_refl _) (reverse_Permutation _) E1)
    as (h2 & E2 & Hm & _ & _ & _ & Hws & _).
  exists h1, h2. split; [exact E1|]. split; [exact E2|].
  split; [exact Hm | exact Hws].
Defined.

Lemma worker_fifo_witness :
  calls (snd (workerLoop 2 loadedHandler
                (mkWorker "news@example.com" (failsOn "bob@example.org")))) =
    [("news@example.com", "ann@example.org");
     ("news@example.com", "bob@example.org")] /\
  callErrors (snd (workerLoop 2 loadedHandler
                (mkWorker "news@example.com" (failsOn "bob@example.org")))) =
    [("bob@example.org", "Error 1205")] /\
  m (fst (workerLoop 2 loadedHandler
            (mkWorker "news@example.com" (failsOn "bob@example.org"))))
    !! "news@example.com" = Some (mkChan 100 ["cyd@example.org"]).
Proof.
  assert (Hq : m loadedHandler !!
                 w_key (mkWorker "news@example.com" (failsOn "bob@example.org")) =
               Some (mkChan 100 ["ann@example.org"; "bob@example.org";
                                 "cyd@example.org"]))
    by (vm_compute; reflexivity).
  destruct (worker_fifo 2 loadedHandler
              (mkWorker "news@example.com" (failsOn "bob@example.org"))
              100 _ Hq) as (Hrest & _ & Hcalls & Herrs & _).
  split; [exact Hcalls|]. split; [|exact Hrest].
  rewrite Herrs. vm_compute; reflexivity.
Defined.

Lemma fetch_only_on_confirmation_witness :
  exists sns,
    decodesEnvelope sampleDecode sampleHandler (post (confirmation goodURL)) sns /\
    sns_Type sns = "SubscriptionConfirmation" /\
    sns_URL sns = goodURL.
Proof.
  assert (Hin : goodURL ∈
            fetched (snd (ServeHTTP sampleDecode sampleUnmarshal sampleHandler
                            (post (confirmation goodURL))))).
  { assert (E : fetched (snd (ServeHTTP sampleDecode sampleUnmarshal
                                sampleHandler (post (confirmation goodURL)))) =
                [goodURL]) by (vm_compute; reflexivity).
    rewrite E. apply list_elem_of_here. }
  destruct (fetch_only_on_confirmation sampleDecode sampleUnmarshal
              sampleHandler (post (confirmation goodURL)) goodURL Hin)
    as (sns & Henv & Hty & Hurl & _).
  exists sns. split; [exact Henv|]. split; [exact Hty | exact Hurl].
Defined.

Lemma queues_stay_bounded_witness :
  bounded (m (fst (fst (ServeHTTP sampleDecode sampleUnmarshal freshHandler
                          (post (notification bounceText)))))).
Proof.
  destruct (queues_stay_bounded sampleDecode sampleUnmarshal)
    as (Hnew & Hreg & Hserve & _).
  apply Hserve.
  apply (Hreg newHandler "news@example.com" noError freshHandler Hnew).
  vm_compute; reflexivity.
Defined.

Lemma confirmation_fetch_anywhere_witness :
  fetched (snd (ServeHTTP sampleDecode sampleUnmarshal sampleHandler
                  (post (confirmation pathURL)))) = [pathURL].
Proof.
  assert (Hd : decodesEnvelope sampleDecode sampleHandler
                 (post (confirmation pathURL))
                 (mkSns "SubscriptionConfirmation" pathURL confirmationMessage))
    by (apply sample_decodes_confirmation; vm_compute; reflexivity).
  apply (proj2 (confirmation_fetch_anywhere sampleDecode sampleUnmarshal
                  _ _ _ Hd eq_refl)).
  exists "http://example.org/", EmptyString. vm_compute; reflexivity.
Defined.

Lemma fresh_decodes_bounce :
  decodesPayload sampleDecode sampleUnmarshal freshHandler
    (post (notification bounceText)) bounceMsg.
Proof.
  exists (mkSns "Notification" EmptyString bounceText).
  split; [split; [reflexivity | vm_compute; reflexivity]
         | split; [reflexivity | vm_compute; reflexivity]].
Defined.

Lemma queued_addresses_reach_blacklister_witness :
  calls (snd (workerLoop 5
                (fst (fst (ServeHTTP sampleDecode sampleUnmarshal freshHandler
                             (post (notification bounceText)))))
                (mkWorker "news@example.com" noError))) =
    [("news@example.com", "ann@example.org");
     ("news@example.com", "bob@example.org")].
Proof.
  assert (Hact : actionable bounceMsg = true) by (vm_compute; reflexivity).
  assert (Hres : resolve (m freshHandler) (Mail_Source bounceMsg) =
                 Some ("news@example.com", makeChan 100))
    by (vm_compute; reflexivity).
  exact (queued_addresses_reach_blacklister sampleDecode sampleUnmarshal
           _ _ _ _ _ (mkWorker "news@example.com" noError) 5
           fresh_decodes_bounce Hact Hres eq_refl).
Defined.
